(** * partner-onboarding-rag: ingestion and retrieval pipeline

    A shallow embedding of [ingest.py] and [rag.py].  Python strings are
    sequences of Unicode code points, Python integers are unbounded, and
    the vector store, the file system and the HTTP client are external
    services whose replies are collected in a [World]. *)

From Stdlib Require Import ZArith NArith Lia List Ascii String DecimalNat Sorted.
From stdpp Require Import base option list gmap strings.

Local Open Scope Z_scope.

(** ** Python strings *)

(** A character is a Unicode code point; [str] is a list of them. *)
Definition char := N.
Abbreviation text := (list char).

Definition text_of (s : string) : text :=
  List.map N_of_ascii (String.list_ascii_of_string s).

Definition LF : char := 10%N.
Definition CR : char := 13%N.
Definition SLASH : char := 47%N.
Definition DOT : char := 46%N.
Definition DASH : char := 45%N.

(** [str.isspace] on one code point, as used by [str.strip()]. *)
Definition isspace (c : char) : bool :=
  ((9 <=? c) && (c <=? 13) || (28 <=? c) && (c <=? 32)
   || (c =? 133) || (c =? 160) || (c =? 5760)
   || (8192 <=? c) && (c <=? 8202)
   || (c =? 8232) || (c =? 8233) || (c =? 8239) || (c =? 8287)
   || (c =? 12288))%N.

Fixpoint lstrip (s : text) : text :=
  match s with
  | [] => []
  | c :: s' => if isspace c then lstrip s' else s
  end.

Definition rstrip (s : text) : text := rev (lstrip (rev s)).

(** [s.strip()] *)
Definition strip (s : text) : text := rstrip (lstrip s).

(** Truth value of a list: non-empty. *)
Definition truthy_list {A} (l : list A) : bool :=
  match l with [] => false | _ => true end.

(** Truth value of a string: non-empty. *)
Definition truthy (s : text) : bool :=
  match s with [] => false | _ => true end.

(** Index adjustment of a slice bound against a sequence of length [n]. *)
Definition adjust_index (n x : Z) : Z :=
  if x <? 0 then Z.max 0 (x + n) else Z.min x n.

(** [s[start:stop]] *)
Definition py_slice (s : text) (start stop : Z) : text :=
  let n := Z.of_nat (length s) in
  let a := adjust_index n start in
  let b := adjust_index n stop in
  take (Z.to_nat (b - a)) (drop (Z.to_nat a) s).

(** [s.split(sep)] for a one-character separator. *)
Fixpoint split (sep : char) (s : text) : list text :=
  match s with
  | [] => [[]]
  | c :: s' =>
      if (c =? sep)%N then [] :: split sep s'
      else match split sep s' with
           | [] => [[c]]
           | l :: ls => (c :: l) :: ls
           end
  end.

(** [sep.join(parts)] *)
Fixpoint join (sep : text) (parts : list text) : text :=
  match parts with
  | [] => []
  | [p] => p
  | p :: ps => p ++ sep ++ join sep ps
  end.

(** [s.replace(c, "")] for a one-character [c]. *)
Fixpoint remove_char (c : char) (s : text) : text :=
  match s with
  | [] => []
  | x :: s' => if (x =? c)%N then remove_char c s' else x :: remove_char c s'
  end.

(** [str(n)] for a non-negative integer. *)
Fixpoint chars_of_uint (d : Decimal.uint) : text :=
  match d with
  | Decimal.Nil => []
  | Decimal.D0 d => 48%N :: chars_of_uint d
  | Decimal.D1 d => 49%N :: chars_of_uint d
  | Decimal.D2 d => 50%N :: chars_of_uint d
  | Decimal.D3 d => 51%N :: chars_of_uint d
  | Decimal.D4 d => 52%N :: chars_of_uint d
  | Decimal.D5 d => 53%N :: chars_of_uint d
  | Decimal.D6 d => 54%N :: chars_of_uint d
  | Decimal.D7 d => 55%N :: chars_of_uint d
  | Decimal.D8 d => 56%N :: chars_of_uint d
  | Decimal.D9 d => 57%N :: chars_of_uint d
  end.

Definition str_of_nat (n : nat) : text := chars_of_uint (Nat.to_uint n).

(** [str(z)] for any integer. *)
Definition str_of_Z (z : Z) : text :=
  if z <? 0 then DASH :: str_of_nat (Z.to_nat (- z)) else str_of_nat (Z.to_nat z).

(** ** ingest.py: chunking *)

Definition CHUNK_SIZE : Z := 800.
Definition CHUNK_OVERLAP : Z := 120.

(** The [while i < n] loop of [chunk_text].  [fuel] bounds the number of
    iterations; [None] means the loop is still running when it is spent. *)
Fixpoint chunk_loop (fuel : nat) (txt : text) (size overlap : Z)
    (i : Z) (chunks : list text) : option (list text) :=
  if i <? Z.of_nat (length txt) then
    match fuel with
    | O => None
    | S fuel' =>
        let chunk := py_slice txt i (i + size) in
        let chunks' := if truthy (strip chunk) then chunks ++ [chunk] else chunks in
        chunk_loop fuel' txt size overlap (i + Z.max 1 (size - overlap)) chunks'
    end
  else Some chunks.

Definition chunk_text_fuel (fuel : nat) (txt : text) (size overlap : Z)
    : option (list text) :=
  chunk_loop fuel txt size overlap 0 [].

(** [chunk_text(text, size, overlap)]: one unit of fuel per character is
    always enough. *)
Definition chunk_text (txt : text) (size overlap : Z) : list text :=
  default [] (chunk_text_fuel (length txt) txt size overlap).

(** The reference algorithm of the specification, as a derivation:
    [ref_chunks T size overlap off out] holds when starting at offset
    [off] the algorithm emits exactly [out]. *)
Inductive ref_chunks (T : text) (size overlap : Z) : Z -> list text -> Prop :=
| ref_done off :
    Z.of_nat (length T) <= off ->
    ref_chunks T size overlap off []
| ref_keep off out :
    off < Z.of_nat (length T) ->
    strip (take (Z.to_nat size) (drop (Z.to_nat off) T)) <> [] ->
    ref_chunks T size overlap (off + Z.max 1 (size - overlap)) out ->
    ref_chunks T size overlap off
      (take (Z.to_nat size) (drop (Z.to_nat off) T) :: out)
| ref_skip off out :
    off < Z.of_nat (length T) ->
    strip (take (Z.to_nat size) (drop (Z.to_nat off) T)) = [] ->
    ref_chunks T size overlap (off + Z.max 1 (size - overlap)) out ->
    ref_chunks T size overlap off out.

(** The offsets visited by the loop, with the same fuel discipline. *)
Fixpoint offsets_from (fuel : nat) (n step : Z) (i : Z) : list Z :=
  if i <? n then
    match fuel with
    | O => []
    | S fuel' => i :: offsets_from fuel' n step (i + step)
    end
  else [].

Definition keep_chunk (c : text) : bool := truthy (strip c).

(** ** ingest.py: normalising a text file *)

(** What [open(path, "r")] does to the decoded content of a file before
    [f.read()] returns it (universal newlines): a carriage return
    followed by a line feed, and a carriage return alone, become one
    line feed. *)
Fixpoint universal_newlines (content : text) : text :=
  match content with
  | [] => []
  | c :: rest =>
      if (c =? CR)%N then
        match rest with
        | d :: rest' =>
            if (d =? LF)%N then LF :: universal_newlines rest'
            else LF :: universal_newlines rest
        | [] => [LF]
        end
      else c :: universal_newlines rest
  end.

(** The expression returned by [read_txt], on the text [f.read()] gave. *)
Definition normalize_txt (txt : text) : text :=
  join [LF] (List.map strip (split LF (remove_char CR txt))).

(** ** Paths ([os.path]) *)

(** Position just after the last [sep] of [p], scanning from [pos]. *)
Fixpoint after_last (sep : char) (p : text) (cur : text) : text :=
  match p with
  | [] => cur
  | c :: p' => if (c =? sep)%N then after_last sep p' p' else after_last sep p' cur
  end.

(** [os.path.basename(p)] *)
Definition basename (p : text) : text := after_last SLASH p p.

Fixpoint lstrip_dots (s : text) : text :=
  match s with
  | [] => []
  | c :: s' => if (c =? DOT)%N then lstrip_dots s' else s
  end.

(** [os.path.splitext(p)[1]]: from the last dot of the base name on,
    leading dots of the base name not counting. *)
Definition splitext_ext (p : text) : text :=
  let stem := lstrip_dots (basename p) in
  if existsb (N.eqb DOT) stem then DOT :: after_last DOT stem stem else [].

(** [s.lower()] on the letters A to Z; no other code point lowers to one
    of [p], [d], [f]. *)
Definition lower (s : text) : text :=
  List.map (fun c => if ((65 <=? c) && (c <=? 90))%N then (c + 32)%N else c) s.

Definition text_eqb (a b : text) : bool := bool_decide (a = b).

(** ** External services and effects *)

Inductive exn_class :=
| OSError | PdfError | StoreError | IndexError | AttributeError
| ConnectionError | Timeout | HTTPError | JSONDecodeError.

(** An exception object; [str(e)] is [exn_msg e].  Every class above
    derives from [Exception]. *)
Record exn := Exn { exn_cls : exn_class; exn_msg : text }.

Inductive outcome (A : Type) :=
| Returns (a : A)
| Raises (e : exn).
Arguments Returns {A} a.
Arguments Raises {A} e.

(** Values stored in a metadata dict. *)
Inductive mval := MStr (s : text) | MInt (z : Z).

Definition str_of_mval (v : mval) : text :=
  match v with MStr s => s | MInt z => str_of_Z z end.

Abbreviation metadata := (gmap string mval).

(** The dict returned by [collection.query]: a key may be absent. *)
Record query_result := QueryResult {
  qr_documents : option (list (list text));
  qr_metadatas : option (list (list metadata));
}.

(** The JSON values that are not objects, by their Python type. *)
Inductive json_kind := JList | JStr | JInt | JFloat | JBool | JNull.

(** [type(v).__name__] of a decoded JSON value that is not an object. *)
Definition py_type_name (k : json_kind) : text :=
  match k with
  | JList => text_of "list"
  | JStr => text_of "str"
  | JInt => text_of "int"
  | JFloat => text_of "float"
  | JBool => text_of "bool"
  | JNull => text_of "NoneType"
  end.

(** A decoded JSON body, as far as [.get("response", "")] sees it: an
    object in the reply format of the generation service (the value
    under [response], when there is one, is a string), or a value that
    is not an object. *)
Inductive json :=
| JObject (fields : gmap string text)
| JNotObject (kind : json_kind).

(** A reply of the HTTP client; [resp_url] is the URL the reply itself
    reports ([Response.url]). *)
Record response := Response {
  status_code : Z;
  reason : text;
  resp_url : text;
  json_body : outcome json;
}.

(** Calls that leave the process, in the order they are made. *)
Inductive event :=
| EvOpenCollection
| EvDelete
| EvAdd (documents : list text) (metadatas : list metadata) (ids : list text)
| EvQuery (query_texts : list text) (n_results : Z)
| EvReadText (path : text)
| EvReadPdf (path : text)
| EvPrint (line : text)
| EvPost (url model prompt : text) (timeout : Z).

(** What the outside answers to each call.  [w_read_text] is what
    [f.read()] returns for a file opened in text mode: the decoded
    content with its line endings already translated by [open]. *)
Record World := {
  w_open_collection : outcome unit;
  w_delete : outcome unit;
  w_add : list text -> list metadata -> list text -> outcome unit;
  w_query : list text -> Z -> outcome query_result;
  w_read_text : text -> outcome text;
  w_pdf_pages : text -> outcome (list (option text));
  w_getenv : string -> option text;
  w_post : text -> text -> text -> Z -> outcome response;
}.

(** A computation reads the world, appends to the call log and either
    returns or raises. *)
Definition M (A : Type) : Type := World -> list event -> outcome A * list event.

Definition ret {A} (a : A) : M A := fun _ log => (Returns a, log).

Definition bind {A B} (c : M A) (k : A -> M B) : M B :=
  fun w log =>
    match c w log with
    | (Returns a, log') => k a w log'
    | (Raises e, log') => (Raises e, log')
    end.

Definition raise {A} (e : exn) : M A := fun _ log => (Raises e, log).

(** [try: c  except Exception as e: h e] *)
Definition try_except {A} (c : M A) (h : exn -> M A) : M A :=
  fun w log =>
    match c w log with
    | (Returns a, log') => (Returns a, log')
    | (Raises e, log') => h e w log'
    end.

(** One external call: log it, then take the world's reply. *)
Definition call {A} (ev : event) (reply : World -> outcome A) : M A :=
  fun w log => (reply w, log ++ [ev]).

Definition lift {A} (o : outcome A) : M A := fun _ log => (o, log).

#[global] Instance M_ret : MRet M := @ret.
#[global] Instance M_bind : MBind M := fun A B k c => bind c k.

Definition run {A} (c : M A) (w : World) : outcome A * list event := c w [].

Definition getenv (name : string) : M (option text) :=
  fun w log => (Returns (w_getenv w name), log).

Definition print (line : text) : M unit :=
  call (EvPrint line) (fun _ => Returns tt).

(** ** ingest.py: loading and indexing *)

Definition read_txt (path : text) : M text :=
  txt ← call (EvReadText path) (fun w => w_read_text w path);
  mret (normalize_txt txt).

(** [page.extract_text() or ""] for every page, joined by newlines. *)
Definition read_pdf (path : text) : M text :=
  pages ← call (EvReadPdf path) (fun w => w_pdf_pages w path);
  mret (join [LF] (List.map (default []) pages)).

Definition build_collection : M unit :=
  call EvOpenCollection w_open_collection.

(** The three accumulators [texts], [metadatas], [ids]. *)
Definition batch : Type := list text * list metadata * list text.

Definition chunk_metadata (fpath : text) (j : nat) : metadata :=
  {[ "source"%string := MStr (basename fpath);
     "path"%string := MStr fpath;
     "chunk"%string := MInt (Z.of_nat j) ]}.

Definition chunk_id (fpath : text) (j : nat) : text :=
  basename fpath ++ [DASH] ++ str_of_nat j.

(** [for j, ch in enumerate(chunks)] starting the count at [j]. *)
Fixpoint add_chunks (fpath : text) (j : nat) (chunks : list text) (acc : batch)
    : batch :=
  match chunks with
  | [] => acc
  | ch :: rest =>
      let '(texts, metadatas, ids) := acc in
      add_chunks fpath (S j) rest
        (texts ++ [ch], metadatas ++ [chunk_metadata fpath j], ids ++ [chunk_id fpath j])
  end.

(** The [try] around reading one file: [None] is the [continue]. *)
Definition load_file (fpath : text) : M (option text) :=
  let ext := lower (splitext_ext fpath) in
  try_except
    (raw ← (if text_eqb ext (text_of ".pdf") then read_pdf fpath else read_txt fpath);
     mret (Some raw))
    (fun e =>
       print (text_of "[skip] " ++ fpath ++ text_of ": " ++ exn_msg e);;
       mret None).

(** [for fpath in files] *)
Fixpoint index_loop (files : list text) (acc : batch) : M batch :=
  match files with
  | [] => mret acc
  | fpath :: rest =>
      r ← load_file fpath;
      match r with
      | None => index_loop rest acc
      | Some raw =>
          index_loop rest
            (add_chunks fpath 0 (chunk_text raw CHUNK_SIZE CHUNK_OVERLAP) acc)
      end
  end.

(** The batch [index_files] accumulates before the bulk add. *)
Definition index_batch (files : list text) : M batch :=
  build_collection;;
  try_except (call EvDelete w_delete) (fun _ => mret tt);;
  index_loop files ([], [], []).

Definition index_files (files : list text) : M (nat * nat) :=
  acc ← index_batch files;
  let '(texts, metadatas, ids) := acc in
  (if truthy_list texts
   then call (EvAdd texts metadatas ids) (fun w => w_add w texts metadatas ids)
   else mret tt);;
  mret (length files, length texts).

(** ** rag.py: retrieval and answering *)

Definition SYSTEM_PROMPT : text :=
  text_of "You are a precise Partner Program assistant."
  ++ text_of " Answer ONLY using the provided context excerpts."
  ++ text_of " If the answer is not in the context, say: 'I don't know based on the current documentation.'"
  ++ text_of " Be concise and use bullet points. Include a short 'Sources' list with file names.".

Definition _get_collection : M unit :=
  call EvOpenCollection w_open_collection.

(** [l[0]] *)
Definition item0 {A} (l : list A) : M A :=
  match l with
  | x :: _ => mret x
  | [] => raise (Exn IndexError (text_of "list index out of range"))
  end.

Definition retrieve (query : text) (k : Z) : M (list (text * metadata)) :=
  _get_collection;;
  res ← call (EvQuery [query] (Z.max 1 k)) (fun w => w_query w [query] (Z.max 1 k));
  docs ← item0 (default [[]] (qr_documents res));
  metas ← item0 (default [[]] (qr_metadatas res));
  mret (zip docs metas).

(** [x or d] for an optional string [x]. *)
Definition or_else (x : option text) (d : text) : text :=
  match x with
  | Some (c :: s) => c :: s
  | _ => d
  end.

(** The message [Response.raise_for_status()] builds: empty unless the
    status is a client or a server error; it quotes the reply's own
    reason and URL. *)
Definition http_error_msg (r : response) : text :=
  let code := status_code r in
  if (400 <=? code) && (code <? 500) then
    str_of_Z code ++ text_of " Client Error: " ++ reason r
    ++ text_of " for url: " ++ resp_url r
  else if (500 <=? code) && (code <? 600) then
    str_of_Z code ++ text_of " Server Error: " ++ reason r
    ++ text_of " for url: " ++ resp_url r
  else [].

(** [Response.raise_for_status()] of the HTTP client. *)
Definition raise_for_status (r : response) : M unit :=
  let msg := http_error_msg r in
  if truthy msg then raise (Exn HTTPError msg) else mret tt.

(** The message of the [AttributeError] for [v.get] on a value that is
    not an object. *)
Definition no_get_msg (k : json_kind) : text :=
  text_of "'" ++ py_type_name k ++ text_of "' object has no attribute 'get'".

Definition _ollama_generate (prompt : text) (model host : option text)
    (timeout : Z) : M text :=
  env_model ← getenv "OLLAMA_MODEL";
  let model := or_else model (default (text_of "granite3.3:8b") env_model) in
  env_host ← getenv "OLLAMA_HOST";
  let host := or_else host (default (text_of "http://localhost:11434") env_host) in
  let url := host ++ text_of "/api/generate" in
  r ← call (EvPost url model prompt timeout) (fun w => w_post w url model prompt timeout);
  raise_for_status r;;
  body ← lift (json_body r);
  match body with
  | JObject fields => mret (default [] (fields !! "response"%string))
  | JNotObject kind => raise (Exn AttributeError (no_get_msg kind))
  end.

Definition NO_CONTEXT : text :=
  text_of "I couldn't retrieve any context. Please run `python ingest.py` after placing your documents "
  ++ text_of "under `data/docs/`, then try again.".

Definition LLM_FAILED : text :=
  text_of "LLM call failed. Check that Ollama is running and `OLLAMA_HOST`/`OLLAMA_MODEL` are set."
  ++ [LF; LF].

Definition context_block (ctx_pairs : list (text * metadata)) : text :=
  join ([LF; LF] ++ text_of "---" ++ [LF])
    (List.map
       (fun dm : text * metadata =>
          text_of "[From "
          ++ str_of_mval (default (MStr (text_of "unknown")) (dm.2 !! "source"%string))
          ++ text_of "]:" ++ [LF] ++ dm.1)
       ctx_pairs).

Definition full_prompt (query : text) (ctx_pairs : list (text * metadata)) : text :=
  let user_prompt :=
    text_of "Context excerpts:" ++ [LF] ++ context_block ctx_pairs ++ [LF; LF]
    ++ text_of "Question: " ++ query ++ [LF; LF]
    ++ text_of "Answer in bullets. Then add a 'Sources' list with the file names only." in
  SYSTEM_PROMPT ++ [LF; LF] ++ user_prompt ++ [LF; LF] ++ text_of "Answer:".

Definition answer (query : text) (top_k : Z) : M text :=
  ctx_pairs ← retrieve query top_k;
  match ctx_pairs with
  | [] => mret NO_CONTEXT
  | _ :: _ =>
      try_except
        (_ollama_generate (full_prompt query ctx_pairs) None None 120)
        (fun e => mret (LLM_FAILED ++ text_of "Error: " ++ exn_msg e))
  end.

(** ** Vocabulary of the properties, and test doubles *)

Definition window (T : text) (size : Z) (o : Z) : text := py_slice T o (o + size).

(** The offsets the loop visits on a text of length [n]. *)
Definition offsets (n step : Z) : list Z := offsets_from (Z.to_nat n) n step 0.

(** The offsets of the chunks [chunk_text] keeps. *)
Definition kept_offsets (T : text) (size overlap : Z) : list Z :=
  List.filter (fun o => keep_chunk (window T size o))
    (offsets (Z.of_nat (length T)) (Z.max 1 (size - overlap))).

(** [ceil(a / b)] for positive [b]. *)
Definition ceil_div (a b : Z) : Z := (a + b - 1) / b.

(** What [strip] does to one line: it removes a whitespace prefix and a
    whitespace suffix, and what is left neither starts nor ends with
    whitespace. *)
Definition stripped_of (line_in line_out : text) : Prop :=
  exists pre suf,
    line_in = pre ++ line_out ++ suf /\
    forallb isspace pre = true /\ forallb isspace suf = true /\
    (forall c, head line_out = Some c -> isspace c = false) /\
    (forall c, last line_out = Some c -> isspace c = false).

(** A world with a working store and no environment variables, given the
    files on disk, the store's reply to a query and the HTTP reply. *)
Definition world_of (files : text -> outcome text) (reply : outcome query_result)
    (post : outcome response) : World :=
  {| w_open_collection := Returns tt;
     w_delete := Returns tt;
     w_add := fun _ _ _ => Returns tt;
     w_query := fun _ _ => reply;
     w_read_text := files;
     w_pdf_pages := fun _ => Raises (Exn PdfError (text_of "cannot read PDF"));
     w_getenv := fun _ => None;
     w_post := fun _ _ _ _ => post |}.

Definition no_file : text -> outcome text :=
  fun _ => Raises (Exn OSError (text_of "No such file or directory")).

Definition empty_reply : outcome query_result :=
  Returns (QueryResult (Some [[]]) (Some [[]])).

Definition no_server : outcome response :=
  Raises (Exn ConnectionError (text_of "Connection refused")).

(** One file with leading and trailing blanks on its lines. *)
Definition indented_file : text :=
  text_of "  MDF covers " ++ [CR; LF] ++ text_of "  co-marketing funds.  ".

Definition indented_world : World :=
  world_of (fun _ => Returns (universal_newlines indented_file)) empty_reply no_server.

(** A file that mixes the three line endings. *)
Definition mixed_endings_file : text :=
  text_of "  MDF covers " ++ [CR; LF] ++ text_of "  co-marketing funds.  " ++ [CR]
  ++ text_of " SLA: 2 days" ++ [LF] ++ text_of "end ".

Definition mixed_endings_world : World :=
  world_of (fun _ => Returns (universal_newlines mixed_endings_file))
    empty_reply no_server.

(** The normalisation as the specification words it: only trailing
    whitespace is stripped from a line. *)
Definition spec_normalize_txt (txt : text) : text :=
  join [LF] (List.map rstrip (split LF (remove_char CR txt))).

Definition is_post (ev : event) : bool :=
  match ev with EvPost _ _ _ _ => true | _ => false end.

(** The store's reply carries no hit for the one query text: the
    documents row is empty (or the key is absent), and the metadata key
    is absent or has a row. *)
Definition no_results (res : query_result) : Prop :=
  head (default [[]] (qr_documents res)) = Some [] /\
  is_Some (head (default [[]] (qr_metadatas res))).

(** Model and endpoint when [answer] calls [_ollama_generate] with its
    defaults. *)
Definition gen_model (w : World) : text :=
  default (text_of "granite3.3:8b") (w_getenv w "OLLAMA_MODEL"%string).

Definition gen_url (w : World) : text :=
  default (text_of "http://localhost:11434") (w_getenv w "OLLAMA_HOST"%string)
  ++ text_of "/api/generate".

(** The ways the call to the generation service fails, with the
    exception each raises: the request itself fails (connection error,
    timeout); the status is 4xx or 5xx; the body is not JSON; the body is
    JSON but not an object. *)
Inductive generation_fails (w : World) (prompt : text) : exn -> Prop :=
| fails_request e :
    w_post w (gen_url w) (gen_model w) prompt 120 = Raises e ->
    generation_fails w prompt e
| fails_status r :
    w_post w (gen_url w) (gen_model w) prompt 120 = Returns r ->
    400 <= status_code r < 600 ->
    generation_fails w prompt (Exn HTTPError (http_error_msg r))
| fails_decode r e :
    w_post w (gen_url w) (gen_model w) prompt 120 = Returns r ->
    ~ 400 <= status_code r < 600 ->
    json_body r = Raises e ->
    generation_fails w prompt e
| fails_shape r kind :
    w_post w (gen_url w) (gen_model w) prompt 120 = Returns r ->
    ~ 400 <= status_code r < 600 ->
    json_body r = Returns (JNotObject kind) ->
    generation_fails w prompt (Exn AttributeError (no_get_msg kind)).

(** A store with one hit and a generation service that answers 500. *)
Definition faq_reply : outcome query_result :=
  Returns (QueryResult
             (Some [[text_of "MDF covers co-marketing funds."]])
             (Some [[chunk_metadata (text_of "data/docs/faq.txt") 0]])).

Definition http_500 : outcome response :=
  Returns (Response 500 (text_of "Internal Server Error")
             (text_of "http://localhost:11434/api/generate")
             (Raises (Exn JSONDecodeError (text_of "Expecting value")))).

Definition failing_world : World := world_of no_file faq_reply http_500.

(** A generation service that answers with a status that is neither 2xx
    nor an error status, and a usable body. *)
Definition http_302 : outcome response :=
  Returns (Response 302 (text_of "Found")
             (text_of "http://localhost:11434/api/generate")
             (Returns (JObject {[ "response"%string := text_of "ok" ]}))).

Definition redirect_world : World := world_of no_file faq_reply http_302.

(** The text [index_files] gets for one file; [None] when reading it
    raises and the file is skipped. *)
Definition file_text (w : World) (fpath : text) : option text :=
  if text_eqb (lower (splitext_ext fpath)) (text_of ".pdf") then
    match w_pdf_pages w fpath with
    | Returns pages => Some (join [LF] (List.map (default []) pages))
    | Raises _ => None
    end
  else
    match w_read_text w fpath with
    | Returns txt => Some (normalize_txt txt)
    | Raises _ => None
    end.

Definition file_chunks (w : World) (fpath : text) : list text :=
  match file_text w fpath with
  | Some raw => chunk_text raw CHUNK_SIZE CHUNK_OVERLAP
  | None => []
  end.

Definition file_ids (w : World) (fpath : text) : list text :=
  List.map (chunk_id fpath) (seq 0 (length (file_chunks w fpath))).

Definition indexed_texts (w : World) (files : list text) : list text :=
  List.concat (List.map (file_chunks w) files).

Definition indexed_ids (w : World) (files : list text) : list text :=
  List.concat (List.map (file_ids w) files).

(** Two files: one holds only blanks, the other cannot be read. *)
Definition blank_files (path : text) : outcome text :=
  if text_eqb path (text_of "data/docs/blank.txt")
  then Returns (text_of "   " ++ [LF; 9%N; LF])
  else Raises (Exn OSError (text_of "Permission denied")).

Definition blank_world : World := world_of blank_files empty_reply no_server.

(** Two files with the same name in different directories. *)
Definition twin_files : list text :=
  [text_of "data/docs/emea/faq.txt"; text_of "data/docs/apac/faq.txt"].

Definition twin_world : World :=
  world_of (fun _ => Returns (text_of "MDF covers co-marketing funds."))
    empty_reply no_server.

(** ** ingest.py: collecting files and the command-line run *)

(** [os.path.join(a, b)] *)
Definition path_join (a b : text) : text :=
  match b with
  | c :: _ => if (c =? SLASH)%N then b
              else match last a with
                   | None => b
                   | Some z => if (z =? SLASH)%N then a ++ b else a ++ SLASH :: b
                   end
  | [] => match last a with
          | None => []
          | Some z => if (z =? SLASH)%N then a else a ++ [SLASH]
          end
  end.

(** [collect_files(root)]; [glob] is [glob.glob(_, recursive=True)] and
    [isfile] is [os.path.isfile] on the directory tree at hand. *)
Definition collect_files (glob : text -> list text) (isfile : text -> bool)
    (root : text) : list text :=
  let files :=
    glob (path_join root (text_of "**/*.txt"))
    ++ glob (path_join root (text_of "**/*.pdf")) in
  List.filter isfile files.

Definition NO_DOCUMENTS : text :=
  text_of "No documents found. Drop TXT/PDF files under data/docs/ and re"
  ++ [8209%N] ++ text_of "run: python ingest.py".

Definition indexed_report (n_chunks n_files : nat) : text :=
  text_of "Indexed " ++ str_of_nat n_chunks ++ text_of " chunks from "
  ++ str_of_nat n_files ++ text_of " files into Chroma (collection: partner_docs).".

(** The command-line run from [files = collect_files(docs_dir)] on; the
    directory tree it scans, after the sample was copied in, is the one
    [glob] and [isfile] describe. *)
Definition main (glob : text -> list text) (isfile : text -> bool) : M unit :=
  let docs_dir := path_join (text_of "data") (text_of "docs") in
  let files := collect_files glob isfile docs_dir in
  r ← index_files files;
  if (r.1 =? 0)%nat then print NO_DOCUMENTS
  else print (indexed_report r.2 r.1).

(** ** Further vocabulary *)

(** [a] occurs in [b] as a contiguous block. *)
Definition infix_of (a b : text) : Prop := exists pre post, b = pre ++ a ++ post.

(** Number of occurrences of a character. *)
Definition count_char (c : char) (s : text) : nat :=
  length (List.filter (N.eqb c) s).

Definition is_add (ev : event) : bool :=
  match ev with EvAdd _ _ _ => true | _ => false end.

(** The line printed when a file is skipped. *)
Definition skip_line (fpath : text) (e : exn) : text :=
  text_of "[skip] " ++ fpath ++ text_of ": " ++ exn_msg e.

Definition is_pdf (fpath : text) : bool :=
  text_eqb (lower (splitext_ext fpath)) (text_of ".pdf").

(** The calls made for one file of the list. *)
Definition file_events (w : World) (fpath : text) : list event :=
  if is_pdf fpath then
    EvReadPdf fpath ::
    match w_pdf_pages w fpath with
    | Returns _ => []
    | Raises e => [EvPrint (skip_line fpath e)]
    end
  else
    EvReadText fpath ::
    match w_read_text w fpath with
    | Returns _ => []
    | Raises e => [EvPrint (skip_line fpath e)]
    end.

Definition file_metadatas (w : World) (fpath : text) : list metadata :=
  List.map (chunk_metadata fpath) (seq 0 (length (file_chunks w fpath))).

Definition indexed_metadatas (w : World) (files : list text) : list metadata :=
  List.concat (List.map (file_metadatas w) files).

(** The label [answer] puts before an excerpt. *)
Definition source_label (m : metadata) : text :=
  str_of_mval (default (MStr (text_of "unknown")) (m !! "source"%string)).

(** The same world with another reply to [collection.delete]. *)
Definition with_delete (d : outcome unit) (w : World) : World :=
  {| w_open_collection := w_open_collection w;
     w_delete := d;
     w_add := w_add w;
     w_query := w_query w;
     w_read_text := w_read_text w;
     w_pdf_pages := w_pdf_pages w;
     w_getenv := w_getenv w;
     w_post := w_post w |}.

(** No window the loop visits is blank, so none is dropped. *)
Definition all_windows_kept (T : text) (size overlap : Z) : bool :=
  forallb (fun o => keep_chunk (window T size o))
    (offsets (Z.of_nat (length T)) (Z.max 1 (size - overlap))).

(** One row of the bulk add for each chunk of a file. *)
Definition file_rows (w : World) (fpath : text) : list (text * metadata * text) :=
  List.map (fun cj : text * nat =>
              (cj.1, chunk_metadata fpath cj.2, chunk_id fpath cj.2))
    (combine (file_chunks w fpath) (seq 0 (length (file_chunks w fpath)))).

Definition indexed_rows (w : World) (files : list text)
    : list (text * metadata * text) :=
  List.concat (List.map (file_rows w) files).

(** The row was made from chunk [j] of the file [fpath]. *)
Definition row_of (w : World) (fpath : text) (j : nat)
    (row : text * metadata * text) : Prop :=
  file_chunks w fpath !! j = Some row.1.1 /\
  row.1.2 !! "source"%string = Some (MStr (basename fpath)) /\
  row.1.2 !! "path"%string = Some (MStr fpath) /\
  row.1.2 !! "chunk"%string = Some (MInt (Z.of_nat j)) /\
  row.2 = basename fpath ++ text_of "-" ++ str_of_Z (Z.of_nat j).

(** The calls [index_files] makes when the collection opens. *)
Definition index_events (w : World) (files : list text) : list event :=
  [EvOpenCollection; EvDelete]
  ++ List.concat (List.map (file_events w) files)
  ++ (if truthy_list (indexed_texts w files)
      then [EvAdd (indexed_texts w files) (indexed_metadatas w files)
              (indexed_ids w files)]
      else []).

(** The same world with other replies to opening the collection and to
    the bulk add. *)
Definition with_store (o a : outcome unit) (w : World) : World :=
  {| w_open_collection := o;
     w_delete := w_delete w;
     w_add := fun _ _ _ => a;
     w_query := w_query w;
     w_read_text := w_read_text w;
     w_pdf_pages := w_pdf_pages w;
     w_getenv := w_getenv w;
     w_post := w_post w |}.

Definition store_down : exn := Exn StoreError (text_of "database is locked").

(** A directory tree with two text files and a directory named like a
    PDF. *)
Definition sample_glob (pattern : text) : list text :=
  if text_eqb pattern (text_of "data/docs/**/*.txt")
  then [text_of "data/docs/faq.txt"; text_of "data/docs/emea/sla.txt"]
  else if text_eqb pattern (text_of "data/docs/**/*.pdf")
  then [text_of "data/docs/archive.pdf"]
  else [].

Definition sample_isfile (path : text) : bool :=
  negb (text_eqb path (text_of "data/docs/archive.pdf")).

(** What [x or <environment value, else built-in default>] picks. *)
Definition setting (arg : option text) (env : option text) (builtin : text) : text :=
  match arg with
  | Some (c :: s) => c :: s
  | _ => match env with
         | Some v => v
         | None => builtin
         end
  end.

(** A store with two hits, the second without a [source] entry, and a
    generation service that answers. *)
Definition two_hits : outcome query_result :=
  Returns (QueryResult
             (Some [[text_of "MDF covers co-marketing funds."; text_of "Claims close in 30 days."]])
             (Some [[chunk_metadata (text_of "data/docs/faq.txt") 0; ∅]])).

Definition http_ok (fields : gmap string text) : outcome response :=
  Returns (Response 200 (text_of "OK") (text_of "http://localhost:11434/api/generate")
             (Returns (JObject fields))).

Definition answering_world : World :=
  world_of no_file two_hits
    (http_ok {[ "response"%string := text_of "- MDF covers co-marketing funds." ]}).

Definition is_query (ev : event) : bool :=
  match ev with EvQuery _ _ => true | _ => false end.

(** * Properties *)

(** ** Stripping *)

Lemma lstrip_nil s : lstrip s = [] <-> forallb isspace s = true.
Proof.
  induction s as [|c s IH]; simpl; [done|].
  destruct (isspace c); simpl; [exact IH|].
  split; discriminate.
Qed.

Lemma forallb_rev {A} (f : A -> bool) l : forallb f (rev l) = forallb f l.
Proof.
  induction l as [|x l IH]; simpl; [done|].
  rewrite forallb_app, IH. simpl. rewrite andb_true_r. apply andb_comm.
Qed.

Lemma rstrip_nil s : rstrip s = [] <-> forallb isspace s = true.
Proof.
  unfold rstrip. rewrite <- (forallb_rev isspace s), <- lstrip_nil.
  split; intros H.
  - apply (f_equal (@rev char)) in H. by rewrite rev_involutive in H.
  - by rewrite H.
Qed.

Lemma lstrip_head s c s' : lstrip s = c :: s' -> isspace c = false.
Proof.
  induction s as [|x s IH]; simpl; [discriminate|].
  destruct (isspace x) eqn:E; [exact IH|].
  intros [= <- _]. exact E.
Qed.

Lemma strip_nil s : strip s = [] <-> forallb isspace s = true.
Proof.
  unfold strip. rewrite rstrip_nil.
  destruct (lstrip s) as [|c s'] eqn:E.
  - simpl. apply lstrip_nil in E. by rewrite E.
  - pose proof (lstrip_head _ _ _ E) as Hc. simpl. rewrite Hc. simpl.
    split; [discriminate|]. intros H. apply lstrip_nil in H. congruence.
Qed.

(** A chunk is kept exactly when it has a non-whitespace character. *)
Lemma keep_chunk_true c :
  keep_chunk c = true <-> exists x, x ∈ c /\ isspace x = false.
Proof.
  unfold keep_chunk, truthy.
  destruct (strip c) eqn:E.
  - apply strip_nil in E. split; [discriminate|].
    intros (x & Hx & Hs). rewrite forallb_forall in E.
    apply list_elem_of_In in Hx. apply E in Hx. congruence.
  - split; [intros _|done].
    destruct (forallb isspace c) eqn:F.
    + apply strip_nil in F. congruence.
    + clear E. induction c as [|x c IH]; simpl in F; [discriminate|].
      destruct (isspace x) eqn:Hx; simpl in F.
      * destruct (IH F) as (y & Hy & Hs). exists y. split; [by right|done].
      * exists x. split; [by left|done].
Qed.

(** ** Slicing *)

Lemma py_slice_take_drop (T : text) (i size : Z) :
  0 <= i -> 0 < size ->
  py_slice T i (i + size) = take (Z.to_nat size) (drop (Z.to_nat i) T).
Proof.
  intros Hi Hs. unfold py_slice, adjust_index.
  destruct (Z.ltb_spec i 0); [lia|].
  destruct (Z.ltb_spec (i + size) 0); [lia|].
  destruct (Z.le_gt_cases (Z.of_nat (length T)) i) as [Hge|Hlt].
  - rewrite (drop_ge T (Z.to_nat (Z.min i _))), (drop_ge T (Z.to_nat i)) by lia.
    by rewrite !take_nil.
  - replace (Z.min i (Z.of_nat (length T))) with i by lia.
    destruct (Z.le_gt_cases (i + size) (Z.of_nat (length T))).
    + do 2 f_equal. lia.
    + rewrite !take_ge; [done| |]; rewrite length_drop; lia.
Qed.

Lemma window_length (T : text) (size o : Z) :
  0 <= o -> 0 < size -> Z.of_nat (length (window T size o)) <= size.
Proof.
  intros Ho Hs. unfold window. rewrite py_slice_take_drop by done.
  rewrite length_take. lia.
Qed.

Lemma window_lookup (T : text) (size o : Z) (p : nat) :
  0 <= o -> 0 < size -> o <= Z.of_nat p < o + size ->
  window T size o !! (p - Z.to_nat o)%nat = T !! p.
Proof.
  intros Ho Hs Hp. unfold window. rewrite py_slice_take_drop by done.
  rewrite lookup_take_lt by lia. rewrite lookup_drop. f_equal. lia.
Qed.

(** ** The chunking loop *)

Lemma chunk_loop_spec fuel (T : text) size overlap i acc :
  Z.of_nat (length T) - i <= Z.of_nat fuel ->
  chunk_loop fuel T size overlap i acc
  = Some (acc ++ List.filter keep_chunk
                   (List.map (window T size)
                      (offsets_from fuel (Z.of_nat (length T))
                         (Z.max 1 (size - overlap)) i))).
Proof.
  revert i acc. induction fuel as [|fuel IH]; intros i acc Hf; simpl.
  - destruct (Z.ltb_spec i (Z.of_nat (length T))); [lia|]. by rewrite app_nil_r.
  - destruct (Z.ltb_spec i (Z.of_nat (length T))); [|by rewrite app_nil_r].
    rewrite IH by lia. simpl. fold (window T size i). unfold keep_chunk at 2.
    destruct (truthy (strip (window T size i))); [|done].
    by rewrite <- app_assoc.
Qed.

Lemma offsets_from_fuel fuel1 fuel2 n step i :
  1 <= step -> n - i <= Z.of_nat fuel1 -> n - i <= Z.of_nat fuel2 ->
  offsets_from fuel1 n step i = offsets_from fuel2 n step i.
Proof.
  intros Hs. revert fuel2 i.
  induction fuel1 as [|fuel1 IH]; intros [|fuel2] i H1 H2; simpl;
    destruct (Z.ltb_spec i n); try done; try lia.
  f_equal. apply IH; lia.
Qed.

Lemma chunk_text_fuel_spec k (T : text) size overlap :
  chunk_text_fuel (length T + k) T size overlap
  = Some (List.filter keep_chunk
            (List.map (window T size)
               (offsets (Z.of_nat (length T)) (Z.max 1 (size - overlap))))).
Proof.
  unfold chunk_text_fuel. rewrite chunk_loop_spec by lia. simpl.
  do 3 f_equal. unfold offsets. apply offsets_from_fuel; lia.
Qed.

Lemma chunk_text_spec (T : text) size overlap :
  chunk_text T size overlap
  = List.filter keep_chunk
      (List.map (window T size)
         (offsets (Z.of_nat (length T)) (Z.max 1 (size - overlap)))).
Proof.
  unfold chunk_text. rewrite <- (Nat.add_0_r (length T)) at 1.
  by rewrite chunk_text_fuel_spec.
Qed.

(** C9: [chunk_text] terminates on every text and for all integers
    [size] and [overlap], also when [size - overlap <= 0]: the step is at
    least 1, so [len(text)] iterations always suffice, the loop then
    returns, and more fuel never changes the result. *)
Theorem chunk_text_terminates (T : text) (size overlap : Z) :
  1 <= Z.max 1 (size - overlap) /\
  exists chunks,
    chunk_text_fuel (length T) T size overlap = Some chunks /\
    (forall k, chunk_text_fuel (length T + k) T size overlap = Some chunks) /\
    chunk_text T size overlap = chunks.
Proof.
  split; [lia|]. eexists. split; [|split].
  - rewrite <- (Nat.add_0_r (length T)) at 1. apply chunk_text_fuel_spec.
  - intros k. apply chunk_text_fuel_spec.
  - apply chunk_text_spec.
Qed.

(** A negative [size] makes the stop index count from the end. *)
Example chunk_text_negative_size :
  chunk_text (text_of "abc") (-1) 0 = [text_of "ab"].
Proof. reflexivity. Qed.

Example chunk_text_overlap_example :
  chunk_text (text_of "ab      ij") 4 1 = [text_of "ab  "; text_of "  ij"; text_of "j"].
Proof. reflexivity. Qed.

(** ** The reference algorithm *)

Lemma truthy_strip_window (T : text) size off :
  0 <= off -> 0 < size ->
  keep_chunk (window T size off) = true
  <-> strip (take (Z.to_nat size) (drop (Z.to_nat off) T)) <> [].
Proof.
  intros Ho Hs. unfold keep_chunk, window. rewrite py_slice_take_drop by done.
  destruct (strip _); simpl; split; congruence.
Qed.

Lemma ref_chunks_offsets (T : text) size overlap fuel off :
  0 <= off -> 0 < size ->
  Z.of_nat (length T) - off <= Z.of_nat fuel ->
  ref_chunks T size overlap off
    (List.filter keep_chunk
       (List.map (window T size)
          (offsets_from fuel (Z.of_nat (length T)) (Z.max 1 (size - overlap)) off))).
Proof.
  intros Ho Hs. revert off Ho.
  induction fuel as [|fuel IH]; intros off Ho Hf; simpl;
    destruct (Z.ltb_spec off (Z.of_nat (length T))); try lia;
    try (by apply ref_done).
  simpl. destruct (keep_chunk (window T size off)) eqn:K.
  - unfold window at 1. rewrite py_slice_take_drop by done.
    apply ref_keep; [done| |apply IH; lia].
    by apply truthy_strip_window.
  - apply ref_skip; [done| |apply IH; lia].
    destruct (strip (take _ _)) eqn:E; [done|].
    assert (keep_chunk (window T size off) = true); [|congruence].
    apply truthy_strip_window; [done..|]. by rewrite E.
Qed.

Lemma ref_chunks_det (T : text) size overlap off out :
  ref_chunks T size overlap off out ->
  0 <= off -> 0 < size ->
  forall fuel, Z.of_nat (length T) - off <= Z.of_nat fuel ->
  out = List.filter keep_chunk
          (List.map (window T size)
             (offsets_from fuel (Z.of_nat (length T)) (Z.max 1 (size - overlap)) off)).
Proof.
  induction 1 as [off Hge|off out Hlt Hk _ IH|off out Hlt Hk _ IH];
    intros Ho Hs fuel Hf.
  - destruct fuel; simpl; destruct (Z.ltb_spec off (Z.of_nat (length T))); done || lia.
  - destruct fuel as [|fuel]; [lia|]. simpl.
    destruct (Z.ltb_spec off (Z.of_nat (length T))); [|lia]. simpl.
    apply truthy_strip_window in Hk; [|done..]. rewrite Hk.
    unfold window at 1. rewrite py_slice_take_drop by done.
    f_equal. apply IH; lia.
  - destruct fuel as [|fuel]; [lia|]. simpl.
    destruct (Z.ltb_spec off (Z.of_nat (length T))); [|lia]. simpl.
    destruct (keep_chunk (window T size off)) eqn:K.
    + apply truthy_strip_window in K; done.
    + apply IH; lia.
Qed.

(** C1: for positive [size] and [overlap] with [overlap < size],
    [chunk_text] returns exactly the sequence of the reference algorithm:
    from offset 0, slices of up to [size] characters, advancing by
    [max(1, size - overlap)] while the offset is inside the text, keeping
    a slice iff it is non-empty after trimming. *)
Theorem chunk_text_refines_reference (T : text) (size overlap : Z) :
  0 < size -> 0 < overlap -> overlap < size ->
  forall out, ref_chunks T size overlap 0 out <-> out = chunk_text T size overlap.
Proof.
  intros Hs Ho Hlt out. rewrite chunk_text_spec. unfold offsets. split.
  - intros H. eapply ref_chunks_det; [exact H|lia..].
  - intros ->. apply ref_chunks_offsets; lia.
Qed.

(** ** Offsets *)

Lemma offsets_from_bounds fuel n step i o :
  1 <= step -> o ∈ offsets_from fuel n step i -> i <= o < n.
Proof.
  intros Hs. revert i. induction fuel as [|fuel IH]; intros i; simpl;
    destruct (Z.ltb_spec i n); try (by intros ?%elem_of_nil).
  intros [->|H']%elem_of_cons; [lia|]. apply IH in H'. lia.
Qed.

Lemma offsets_from_sorted fuel n step i :
  1 <= step -> StronglySorted Z.lt (offsets_from fuel n step i).
Proof.
  intros Hs. revert i. induction fuel as [|fuel IH]; intros i; simpl;
    destruct (Z.ltb_spec i n); try constructor; [apply IH|].
  apply Forall_forall. intros o Ho. apply offsets_from_bounds in Ho; lia.
Qed.

Lemma offsets_from_cover fuel n step i p :
  1 <= step -> i <= p < n -> n - i <= Z.of_nat fuel ->
  exists o, o ∈ offsets_from fuel n step i /\ o <= p < o + step.
Proof.
  intros Hs. revert i. induction fuel as [|fuel IH]; intros i Hp Hf; [lia|].
  simpl. destruct (Z.ltb_spec i n); [|lia].
  destruct (Z.lt_ge_cases p (i + step)).
  - exists i. split; [by left|lia].
  - destruct (IH (i + step)) as (o & Ho & Hb); [lia..|].
    exists o. split; [by right|done].
Qed.

Lemma filter_map_comm {A B} (f : B -> bool) (g : A -> B) l :
  List.filter f (List.map g l) = List.map g (List.filter (fun a => f (g a)) l).
Proof.
  induction l as [|a l IH]; simpl; [done|].
  destruct (f (g a)); simpl; by rewrite IH.
Qed.

Lemma filter_strongly_sorted {A} (R : A -> A -> Prop) (f : A -> bool) l :
  StronglySorted R l -> StronglySorted R (List.filter f l).
Proof.
  induction 1 as [|a l Hl IH Ha]; simpl; [constructor|].
  destruct (f a); [|done]. constructor; [done|].
  apply Forall_forall. intros x Hx. apply list_elem_of_In, filter_In in Hx as [Hx _].
  rewrite Forall_forall in Ha. apply Ha. by apply list_elem_of_In.
Qed.

Lemma chunk_text_kept_offsets (T : text) size overlap :
  chunk_text T size overlap
  = List.map (fun o => py_slice T o (o + size)) (kept_offsets T size overlap).
Proof. rewrite chunk_text_spec. apply filter_map_comm. Qed.

(** C2: for positive [size] and [overlap] with [overlap < size], the
    chunks returned by [chunk_text] are the slices [T[o:o+size]] at
    strictly increasing offsets [o] inside the text; every
    non-whitespace character of [T] lies in a returned chunk (at its own
    position relative to the chunk's offset); no returned chunk is
    longer than [size]. *)
Theorem chunk_text_offsets_cover_bound (T : text) (size overlap : Z) :
  0 < size -> 0 < overlap -> overlap < size ->
  exists offs : list Z,
    chunk_text T size overlap = List.map (fun o => py_slice T o (o + size)) offs /\
    Forall (fun o => 0 <= o < Z.of_nat (length T)) offs /\
    StronglySorted Z.lt offs /\
    (forall (p : nat) (c : char),
        T !! p = Some c -> isspace c = false ->
        exists o, o ∈ offs /\ o <= Z.of_nat p < o + size /\
                  py_slice T o (o + size) !! (p - Z.to_nat o)%nat = Some c) /\
    Forall (fun ch => Z.of_nat (length ch) <= size) (chunk_text T size overlap).
Proof.
  intros Hs Ho Hlt. exists (kept_offsets T size overlap).
  assert (Hstep : 1 <= Z.max 1 (size - overlap)) by lia.
  split; [apply chunk_text_kept_offsets|].
  split; [|split; [|split]].
  - apply Forall_forall. intros o Hin.
    apply list_elem_of_In, filter_In in Hin as [Hin _].
    apply list_elem_of_In, offsets_from_bounds in Hin; lia.
  - apply filter_strongly_sorted, offsets_from_sorted, Hstep.
  - intros p c Hp Hc.
    pose proof (lookup_lt_Some _ _ _ Hp) as Hlen.
    destruct (offsets_from_cover (Z.to_nat (Z.of_nat (length T)))
                (Z.of_nat (length T)) (Z.max 1 (size - overlap)) 0 (Z.of_nat p))
      as (o & Hin & Hb); [lia..|].
    pose proof (offsets_from_bounds _ _ _ _ _ Hstep Hin) as Hob.
    assert (Hw : window T size o !! (p - Z.to_nat o)%nat = Some c).
    { rewrite window_lookup by lia. done. }
    exists o. split; [|split; [lia|exact Hw]].
    apply list_elem_of_In, filter_In. split; [by apply list_elem_of_In|].
    apply keep_chunk_true. exists c. split; [|done].
    by eapply list_elem_of_lookup_2.
  - rewrite chunk_text_kept_offsets. apply Forall_forall. intros ch Hin.
    apply list_elem_of_In, in_map_iff in Hin as (o & <- & Hin).
    apply filter_In in Hin as [Hin _].
    apply list_elem_of_In, offsets_from_bounds in Hin; [|done].
    apply window_length; lia.
Qed.

(** ** Counting chunks *)

Lemma ceil_div_bounds a b :
  0 < b -> (ceil_div a b - 1) * b < a <= ceil_div a b * b.
Proof.
  intros Hb. unfold ceil_div.
  pose proof (Z.div_mod (a + b - 1) b ltac:(lia)) as Hdm.
  pose proof (Z.mod_pos_bound (a + b - 1) b Hb). nia.
Qed.

Lemma offsets_from_length (m fuel : nat) n step i :
  1 <= step -> n - i <= Z.of_nat fuel ->
  (Z.of_nat m - 1) * step < n - i <= Z.of_nat m * step ->
  length (offsets_from fuel n step i) = m.
Proof.
  intros Hs. revert fuel i. induction m as [|m IH]; intros fuel i Hf Hm.
  - destruct fuel; simpl; destruct (Z.ltb_spec i n); done || lia.
  - destruct fuel as [|fuel]; [nia|]. simpl.
    destruct (Z.ltb_spec i n); [|nia]. simpl. f_equal. apply IH; nia.
Qed.

Lemma offsets_from_first fuel n step i o :
  1 <= step -> o ∈ offsets_from fuel n step i -> o = i \/ i + step <= o.
Proof.
  intros Hs. destruct fuel as [|fuel]; simpl;
    destruct (Z.ltb_spec i n); try (by intros ?%elem_of_nil).
  intros [->|H']%elem_of_cons; [by left|].
  apply offsets_from_bounds in H'; [|done]. right. lia.
Qed.

Lemma filter_all {A} (f : A -> bool) l :
  (forall x, x ∈ l -> f x = true) -> List.filter f l = l.
Proof.
  induction l as [|a l IH]; intros H; simpl; [done|].
  rewrite (H a) by by left. f_equal. apply IH. intros x Hx. apply H. by right.
Qed.

(** A window that reaches the end of the text is kept when the text
    ends in a non-whitespace character. *)
Lemma window_to_end_kept (T : text) size o c :
  0 < size -> 0 <= o < Z.of_nat (length T) -> Z.of_nat (length T) <= o + size ->
  last T = Some c -> isspace c = false ->
  keep_chunk (window T size o) = true.
Proof.
  intros Hs Ho He Hl Hc. apply keep_chunk_true. exists c. split; [|done].
  rewrite last_lookup in Hl.
  apply (list_elem_of_lookup_2 _ (pred (length T) - Z.to_nat o)%nat).
  rewrite window_lookup; [done|lia..].
Qed.

Lemma chunk_text_all_kept (T : text) size overlap (m : nat) :
  let step := Z.max 1 (size - overlap) in
  (forall o, o ∈ offsets (Z.of_nat (length T)) step ->
             keep_chunk (window T size o) = true) ->
  (Z.of_nat m - 1) * step < Z.of_nat (length T) <= Z.of_nat m * step ->
  length (chunk_text T size overlap) = m.
Proof.
  intros step Hk Hm. rewrite chunk_text_spec. fold step.
  rewrite filter_all.
  - rewrite length_map. apply offsets_from_length; lia.
  - intros ch Hin. apply list_elem_of_In, in_map_iff in Hin as (o & <- & Hin).
    apply Hk. by apply list_elem_of_In.
Qed.

(** C3 (as the code has it): with positive [overlap < size], a text of
    exactly [size] characters that ends in a non-whitespace character
    yields [ceil(size / (size - overlap))] chunks, which is at least 2 and
    is 2 for the defaults 800 and 120; a text of [2*size - overlap]
    characters that also has a non-whitespace character among its first
    [size] yields one more, which is 3 for the defaults. *)
Theorem chunk_text_count_at_size (T : text) (size overlap : Z) (c : char) :
  0 < size -> 0 < overlap -> overlap < size ->
  last T = Some c -> isspace c = false ->
  let m := ceil_div size (size - overlap) in
  2 <= m /\
  ceil_div CHUNK_SIZE (CHUNK_SIZE - CHUNK_OVERLAP) = 2 /\
  (Z.of_nat (length T) = size ->
   Z.of_nat (length (chunk_text T size overlap)) = m) /\
  (Z.of_nat (length T) = 2 * size - overlap ->
   keep_chunk (take (Z.to_nat size) T) = true ->
   Z.of_nat (length (chunk_text T size overlap)) = 1 + m).
Proof.
  intros Hs Ho Hlt Hl Hc m.
  pose proof (ceil_div_bounds size (size - overlap) ltac:(lia)) as Hm. fold m in Hm.
  assert (Hm2 : 2 <= m) by nia.
  assert (Hstep : 1 <= Z.max 1 (size - overlap)) by lia.
  split; [done|]. split; [reflexivity|]. split; [intros Hn|intros Hn Hfirst].
  - rewrite (chunk_text_all_kept T size overlap (Z.to_nat m)); [lia| |].
    + intros o Hin. apply offsets_from_bounds in Hin; [|done].
      eapply window_to_end_kept; [done|lia|lia|exact Hl|exact Hc].
    + simpl. replace (Z.max 1 (size - overlap)) with (size - overlap) by lia. nia.
  - rewrite (chunk_text_all_kept T size overlap (Z.to_nat (1 + m))); [lia| |].
    + intros o Hin. pose proof (offsets_from_bounds _ _ _ _ _ Hstep Hin) as Hb.
      destruct (offsets_from_first _ _ _ _ _ Hstep Hin) as [->|Hge].
      * unfold window. rewrite py_slice_take_drop by lia. exact Hfirst.
      * eapply window_to_end_kept; [done|lia|lia|exact Hl|exact Hc].
    + simpl. replace (Z.max 1 (size - overlap)) with (size - overlap) by lia. nia.
Qed.

Lemma chunk_text_refines_reference_witness :
  (0 < 4 /\ 0 < 1 /\ 1 < 4) /\
  (ref_chunks (text_of "abcdefghij") 4 1 0
     [text_of "abcd"; text_of "defg"; text_of "ghij"; text_of "j"]
   <-> [text_of "abcd"; text_of "defg"; text_of "ghij"; text_of "j"]
       = chunk_text (text_of "abcdefghij") 4 1).
Proof.
  split; [lia|].
  apply (chunk_text_refines_reference (text_of "abcdefghij") 4 1); lia.
Defined.

Lemma chunk_text_offsets_cover_bound_witness :
  exists offs : list Z,
    chunk_text (text_of "ab      ij") 4 1
    = List.map (fun o => py_slice (text_of "ab      ij") o (o + 4)) offs /\
    Forall (fun o => 0 <= o < 10) offs /\
    StronglySorted Z.lt offs /\
    (forall (p : nat) (c : char),
        text_of "ab      ij" !! p = Some c -> isspace c = false ->
        exists o, o ∈ offs /\ o <= Z.of_nat p < o + 4 /\
                  py_slice (text_of "ab      ij") o (o + 4) !! (p - Z.to_nat o)%nat
                  = Some c) /\
    Forall (fun ch => Z.of_nat (length ch) <= 4)
      (chunk_text (text_of "ab      ij") 4 1).
Proof.
  apply (chunk_text_offsets_cover_bound (text_of "ab      ij") 4 1); lia.
Defined.

Lemma chunk_text_count_at_size_witness :
  Z.of_nat (length (chunk_text (text_of "abcd") 4 1)) = 2 /\
  Z.of_nat (length (chunk_text (text_of "abcdefg") 4 1)) = 3.
Proof.
  split.
  - apply (chunk_text_count_at_size (text_of "abcd") 4 1 100%N);
      [lia|lia|lia|reflexivity|reflexivity|reflexivity].
  - apply (chunk_text_count_at_size (text_of "abcdefg") 4 1 103%N);
      [lia|lia|lia|reflexivity|reflexivity|reflexivity|reflexivity].
Defined.

(** C3 as stated fails: 800 letters give 2 chunks, not 1, and 1480
    letters give 3, not 2, with the default parameters. *)
Lemma chunk_text_count_counterexample :
  let T1 : text := replicate 800 97%N in
  let T2 : text := replicate 1480 97%N in
  (Z.of_nat (length T1) = CHUNK_SIZE /\
   length (chunk_text T1 CHUNK_SIZE CHUNK_OVERLAP) = 2%nat /\
   length (chunk_text T1 CHUNK_SIZE CHUNK_OVERLAP) <> 1%nat) /\
  (Z.of_nat (length T2) = 2 * CHUNK_SIZE - CHUNK_OVERLAP /\
   length (chunk_text T2 CHUNK_SIZE CHUNK_OVERLAP) = 3%nat /\
   length (chunk_text T2 CHUNK_SIZE CHUNK_OVERLAP) <> 2%nat).
Proof. vm_compute. repeat split; discriminate. Qed.

(** ** Normalising a text file *)

Lemma lstrip_decomp s :
  exists pre, s = pre ++ lstrip s /\ forallb isspace pre = true.
Proof.
  induction s as [|c s (pre & IH & Hpre)]; simpl; [by exists []|].
  destruct (isspace c) eqn:E.
  - exists (c :: pre). simpl. rewrite E, Hpre. split; [by f_equal|done].
  - by exists [].
Qed.

Lemma rstrip_decomp s :
  exists suf, s = rstrip s ++ suf /\ forallb isspace suf = true.
Proof.
  destruct (lstrip_decomp (rev s)) as (pre & H & Hpre).
  exists (rev pre). split; [|by rewrite forallb_rev].
  unfold rstrip. rewrite <- rev_app_distr, <- H. by rewrite rev_involutive.
Qed.

Lemma lstrip_app_nonspace l c t :
  isspace c = false -> lstrip (l ++ c :: t) = lstrip l ++ c :: t.
Proof.
  intros Hc. induction l as [|x l IH]; simpl; [by rewrite Hc|].
  by destruct (isspace x).
Qed.

Lemma rstrip_cons_nonspace c s :
  isspace c = false -> rstrip (c :: s) = c :: rstrip s.
Proof.
  intros Hc. unfold rstrip. simpl.
  rewrite lstrip_app_nonspace by done. by rewrite rev_app_distr.
Qed.

Lemma strip_head s c : head (strip s) = Some c -> isspace c = false.
Proof.
  unfold strip. destruct (lstrip s) as [|x r] eqn:E; [done|].
  pose proof (lstrip_head _ _ _ E) as Hx.
  rewrite rstrip_cons_nonspace by done. simpl. congruence.
Qed.

Lemma rstrip_last s c : last (rstrip s) = Some c -> isspace c = false.
Proof.
  unfold rstrip. destruct (lstrip (rev s)) as [|x r] eqn:E; [done|].
  simpl. rewrite last_snoc. intros [= <-]. by eapply lstrip_head.
Qed.

Lemma strip_stripped_of s : stripped_of s (strip s).
Proof.
  destruct (lstrip_decomp s) as (pre & H1 & Hpre).
  destruct (rstrip_decomp (lstrip s)) as (suf & H2 & Hsuf).
  exists pre, suf. split; [|split; [done|split; [done|split]]].
  - rewrite H1 at 1. f_equal. exact H2.
  - apply strip_head.
  - apply rstrip_last.
Qed.

Lemma split_not_nil sep s : split sep s <> [].
Proof.
  destruct s as [|c s]; simpl; [done|].
  destruct (c =? sep)%N; [done|]. by destruct (split sep s).
Qed.

Lemma split_no_sep sep s : Forall (fun l => sep ∉ l) (split sep s).
Proof.
  induction s as [|c s IH]; simpl.
  - constructor; [apply not_elem_of_nil|constructor].
  - destruct (N.eqb_spec c sep) as [->|Hne].
    + constructor; [apply not_elem_of_nil|done].
    + destruct (split sep s) as [|l ls] eqn:E; [by apply split_not_nil in E|].
      inversion IH as [|? ? Hl Hls]; subst.
      constructor; [|done]. intros [?|?]%elem_of_cons; [congruence|done].
Qed.

Lemma split_app_sep sep l s :
  sep ∉ l ->
  split sep (l ++ sep :: s) = l :: split sep s.
Proof.
  induction l as [|c l IH]; intros Hl; simpl.
  - by rewrite N.eqb_refl.
  - destruct (N.eqb_spec c sep) as [->|Hne]; [by destruct Hl; left|].
    rewrite IH; [done|]. intros ?. apply Hl. by right.
Qed.

Lemma split_no_sep_id sep l : sep ∉ l -> split sep l = [l].
Proof.
  induction l as [|c l IH]; intros Hl; simpl; [done|].
  destruct (N.eqb_spec c sep) as [->|Hne]; [by destruct Hl; left|].
  rewrite IH; [done|]. intros ?. apply Hl. by right.
Qed.

Lemma split_join sep ls :
  ls <> [] -> Forall (fun l => sep ∉ l) ls -> split sep (join [sep] ls) = ls.
Proof.
  induction ls as [|l ls IH]; intros Hne Hall; [done|].
  inversion Hall as [|? ? Hl Hls]; subst.
  destruct ls as [|l' ls]; simpl.
  - by apply split_no_sep_id.
  - rewrite split_app_sep by done. f_equal. by apply IH.
Qed.

Lemma elem_of_remove_char c x s : x ∈ remove_char c s -> x ∈ s /\ x <> c.
Proof.
  induction s as [|y s IH]; simpl; [by intros ?%elem_of_nil|].
  destruct (N.eqb_spec y c) as [->|Hne].
  - intros H. destruct (IH H). split; [by right|done].
  - intros [->|H]%elem_of_cons; [split; [by left|done]|].
    destruct (IH H). split; [by right|done].
Qed.

Lemma elem_of_split sep x l s : l ∈ split sep s -> x ∈ l -> x ∈ s.
Proof.
  revert l. induction s as [|c s IH]; simpl; intros l.
  - intros ->%list_elem_of_singleton. by intros ?%elem_of_nil.
  - destruct (c =? sep)%N.
    + intros [->|H]%elem_of_cons Hx; [by apply elem_of_nil in Hx|].
      right. by eapply IH.
    + destruct (split sep s) as [|l0 ls] eqn:E.
      * intros ->%list_elem_of_singleton Hx. apply list_elem_of_singleton in Hx.
        subst. by left.
      * intros [->|H]%elem_of_cons Hx.
        -- apply elem_of_cons in Hx as [->|Hx]; [by left|].
           right. apply (IH l0); [by left|done].
        -- right. apply (IH l); [by right|done].
Qed.

Lemma elem_of_strip x s : x ∈ strip s -> x ∈ s.
Proof.
  destruct (strip_stripped_of s) as (pre & suf & H & _). intros Hx.
  rewrite H. apply elem_of_app. right. apply elem_of_app. by left.
Qed.

Lemma elem_of_join sep x ls :
  x ∈ join sep ls -> x ∈ sep \/ exists l, l ∈ ls /\ x ∈ l.
Proof.
  induction ls as [|l ls IH]; simpl; [by intros ?%elem_of_nil|].
  destruct ls as [|l' ls].
  - intros Hx. right. exists l. split; [by left|done].
  - intros [Hx|[Hx|Hx]%elem_of_app]%elem_of_app.
    + right. exists l. split; [by left|done].
    + by left.
    + destruct (IH Hx) as [?|(l0 & Hl0 & ?)]; [by left|].
      right. exists l0. split; [by right|done].
Qed.

Lemma normalize_txt_lines txt :
  split LF (normalize_txt txt) = List.map strip (split LF (remove_char CR txt)).
Proof.
  unfold normalize_txt. apply split_join.
  - pose proof (split_not_nil LF (remove_char CR txt)).
    by destruct (split LF (remove_char CR txt)).
  - apply Forall_forall. intros l Hl.
    apply list_elem_of_In, in_map_iff in Hl as (l0 & <- & Hl0).
    intros Hx%elem_of_strip.
    pose proof (split_no_sep LF (remove_char CR txt)) as Hall.
    rewrite Forall_forall in Hall. apply (Hall l0); [by apply list_elem_of_In|done].
Qed.

Lemma normalize_txt_no_cr txt : CR ∉ normalize_txt txt.
Proof.
  unfold normalize_txt.
  intros [H|(l & Hl & Hx)]%elem_of_join.
  - by apply list_elem_of_singleton in H.
  - apply list_elem_of_In, in_map_iff in Hl as (l0 & <- & Hl0).
    apply elem_of_strip in Hx.
    apply list_elem_of_In in Hl0.
    pose proof (elem_of_split LF CR l0 _ Hl0 Hx) as Hin.
    by apply elem_of_remove_char in Hin as [_ ?].
Qed.

Lemma remove_char_id c s : c ∉ s -> remove_char c s = s.
Proof.
  induction s as [|x s IH]; simpl; [done|]. intros H.
  destruct (N.eqb_spec x c) as [->|_]; [by destruct H; left|].
  f_equal. apply IH. intros ?. apply H. by right.
Qed.

Lemma universal_newlines_no_cr_le (n : nat) (content : text) :
  (length content <= n)%nat -> CR ∉ universal_newlines content.
Proof.
  revert content. induction n as [|n IH]; intros [|c rest] Hn; simpl in *;
    try apply not_elem_of_nil; try lia.
  destruct (N.eqb_spec c CR) as [->|Hc].
  - destruct rest as [|d rest'].
    + intros [?|?%elem_of_nil]%elem_of_cons; done.
    + destruct (d =? LF)%N;
        (intros [?|Hin]%elem_of_cons; [done|]); revert Hin; apply IH; simpl in *; lia.
  - intros [?|Hin]%elem_of_cons; [done|]. revert Hin. apply IH. lia.
Qed.

Lemma universal_newlines_no_cr (content : text) : CR ∉ universal_newlines content.
Proof. by apply (universal_newlines_no_cr_le (length content)). Qed.

(** C8 (as the code has it): the text [read_txt] gets has its line
    endings unified by the text-mode [open] (a CRLF and a lone CR end a
    line like an LF), and [read_txt] strips whitespace from BOTH ends of
    every line: the result holds no carriage return, and its lines are
    the lines of the file, each without a whitespace prefix and a
    whitespace suffix, starting and ending in a non-whitespace
    character, the content in between unchanged. *)
Theorem read_txt_normalizes (w : World) (path content : text) :
  w_read_text w path = Returns (universal_newlines content) ->
  exists out,
    run (read_txt path) w = (Returns out, [EvReadText path]) /\
    (CR ∉ out) /\
    split LF out = List.map strip (split LF (universal_newlines content)) /\
    Forall2 stripped_of (split LF (universal_newlines content)) (split LF out).
Proof.
  intros Hr. exists (normalize_txt (universal_newlines content)).
  assert (Hlines : split LF (normalize_txt (universal_newlines content))
                   = List.map strip (split LF (universal_newlines content))).
  { rewrite normalize_txt_lines.
    by rewrite remove_char_id by apply universal_newlines_no_cr. }
  split; [|split; [|split]].
  - unfold run, read_txt, mbind, M_bind, bind, call, mret, M_ret, ret. simpl.
    by rewrite Hr.
  - apply normalize_txt_no_cr.
  - exact Hlines.
  - rewrite Hlines. clear Hlines.
    induction (split LF (universal_newlines content)) as [|l ls IH]; simpl;
      constructor; [apply strip_stripped_of|exact IH].
Qed.

Lemma read_txt_normalizes_witness :
  exists out,
    run (read_txt (text_of "data/docs/faq.txt")) mixed_endings_world
    = (Returns out, [EvReadText (text_of "data/docs/faq.txt")]) /\
    (CR ∉ out) /\
    split LF out
    = List.map strip (split LF (universal_newlines mixed_endings_file)) /\
    Forall2 stripped_of (split LF (universal_newlines mixed_endings_file))
      (split LF out).
Proof.
  apply (read_txt_normalizes mixed_endings_world (text_of "data/docs/faq.txt")
           mixed_endings_file).
  reflexivity.
Defined.

(** The three line endings of the file give four lines. *)
Example read_txt_mixed_endings :
  fst (run (read_txt (text_of "data/docs/faq.txt")) mixed_endings_world)
  = Returns (join [LF] [text_of "MDF covers"; text_of "co-marketing funds.";
                        text_of "SLA: 2 days"; text_of "end"]).
Proof. reflexivity. Qed.

(** C8 as stated fails: on the text [f.read()] returns for a file with
    indented lines, the leading blanks of a line are removed too. *)
Lemma read_txt_counterexample :
  universal_newlines indented_file
  = text_of "  MDF covers " ++ [LF] ++ text_of "  co-marketing funds.  " /\
  fst (run (read_txt (text_of "data/docs/faq.txt")) indented_world)
  = Returns (text_of "MDF covers" ++ [LF] ++ text_of "co-marketing funds.") /\
  spec_normalize_txt (universal_newlines indented_file)
  = text_of "  MDF covers" ++ [LF] ++ text_of "  co-marketing funds." /\
  fst (run (read_txt (text_of "data/docs/faq.txt")) indented_world)
  <> Returns (spec_normalize_txt (universal_newlines indented_file)).
Proof. vm_compute. repeat split; discriminate. Qed.

(** ** Retrieval *)

Lemma retrieve_run (w : World) (q : text) (k : Z) :
  w_open_collection w = Returns tt ->
  run (retrieve q k) w
  = (match w_query w [q] (Z.max 1 k) with
     | Returns res =>
         match default [[]] (qr_documents res), default [[]] (qr_metadatas res) with
         | docs :: _, metas :: _ => Returns (zip docs metas)
         | _, _ => Raises (Exn IndexError (text_of "list index out of range"))
         end
     | Raises e => Raises e
     end,
     [EvOpenCollection; EvQuery [q] (Z.max 1 k)]).
Proof.
  intros Ho.
  unfold run, retrieve, _get_collection, mbind, M_bind, bind, call. simpl.
  rewrite Ho. destruct (w_query w [q] (Z.max 1 k)) as [res|e]; [|done].
  destruct (default [[]] (qr_documents res)) as [|docs ?]; simpl; [done|].
  by destruct (default [[]] (qr_metadatas res)) as [|metas ?].
Qed.

(** C7: [retrieve] asks the store once, for [max(1, k)] results, so a
    [k] below 1 is clamped to 1 and any other [k] is passed on; when the
    store's reply has no hit, [retrieve] returns the empty list and does
    not raise. *)
Theorem retrieve_clamps_and_empty (w : World) (q : text) (k : Z) :
  w_open_collection w = Returns tt ->
  snd (run (retrieve q k) w) = [EvOpenCollection; EvQuery [q] (Z.max 1 k)] /\
  1 <= Z.max 1 k /\
  (k <= 1 -> Z.max 1 k = 1) /\ (1 <= k -> Z.max 1 k = k) /\
  (forall res, w_query w [q] (Z.max 1 k) = Returns res -> no_results res ->
               fst (run (retrieve q k) w) = Returns []).
Proof.
  intros Ho. rewrite retrieve_run by done. simpl.
  split; [done|]. split; [lia|]. split; [lia|]. split; [lia|].
  intros res Hq [Hd [metas Hm]]. rewrite Hq.
  destruct (default [[]] (qr_documents res)) as [|docs ?]; [done|].
  destruct (default [[]] (qr_metadatas res)) as [|ms ?]; [done|].
  simpl in Hd. by injection Hd as ->.
Qed.

Lemma retrieve_clamps_and_empty_witness :
  let w := world_of no_file empty_reply no_server in
  let q := text_of "What does MDF cover?" in
  snd (run (retrieve q (-3)) w) = [EvOpenCollection; EvQuery [q] 1] /\
  fst (run (retrieve q (-3)) w) = Returns [].
Proof.
  intros w q.
  destruct (retrieve_clamps_and_empty w q (-3) eq_refl) as (Hlog & _ & _ & _ & Hres).
  split; [exact Hlog|].
  apply (Hres (QueryResult (Some [[]]) (Some [[]]))); [reflexivity|].
  split; [reflexivity|]. by exists [].
Defined.

(** ** Answering *)

Lemma answer_run (w : World) (q : text) (k : Z) :
  run (answer q k) w
  = match run (retrieve q k) w with
    | (Returns [], log) => (Returns NO_CONTEXT, log)
    | (Returns (p :: ps), log) =>
        match _ollama_generate (full_prompt q (p :: ps)) None None 120 w log with
        | (Returns a, log') => (Returns a, log')
        | (Raises e, log') =>
            (Returns (LLM_FAILED ++ text_of "Error: " ++ exn_msg e), log')
        end
    | (Raises e, log) => (Raises e, log)
    end.
Proof.
  unfold run, answer, mbind, M_bind, bind at 1.
  destruct (retrieve q k w []) as [[[|p ps]|e] log]; try done.
Qed.

Lemma retrieve_never_posts (w : World) (q : text) (k : Z) :
  forallb (fun ev => negb (is_post ev)) (snd (run (retrieve q k) w)) = true.
Proof.
  unfold run, retrieve, _get_collection, mbind, M_bind, bind, call. simpl.
  destruct (w_open_collection w); [|done].
  destruct (w_query w [q] (Z.max 1 k)) as [res|e]; [|done].
  unfold item0.
  destruct (default [[]] (qr_documents res)); simpl; [done|].
  by destruct (default [[]] (qr_metadatas res)).
Qed.

(** C6: when retrieval returns the empty list, [answer] returns the
    fixed message asking to run the ingestion first, makes exactly the
    calls retrieval made, and none of them goes to the generation
    service. *)
Theorem answer_no_context (w : World) (q : text) (k : Z) :
  fst (run (retrieve q k) w) = Returns [] ->
  fst (run (answer q k) w) = Returns NO_CONTEXT /\
  snd (run (answer q k) w) = snd (run (retrieve q k) w) /\
  forallb (fun ev => negb (is_post ev)) (snd (run (answer q k) w)) = true.
Proof.
  intros Hr. rewrite answer_run.
  destruct (run (retrieve q k) w) as [o log] eqn:E. simpl in Hr. subst o. simpl.
  split; [done|]. split; [done|].
  pose proof (retrieve_never_posts w q k) as Hlog. by rewrite E in Hlog.
Qed.

Lemma answer_no_context_witness :
  let w := world_of no_file empty_reply no_server in
  let q := text_of "What does MDF cover?" in
  fst (run (answer q 4) w) = Returns NO_CONTEXT /\
  snd (run (answer q 4) w) = [EvOpenCollection; EvQuery [q] 4] /\
  forallb (fun ev => negb (is_post ev)) (snd (run (answer q 4) w)) = true.
Proof.
  intros w q.
  destruct (answer_no_context w q 4 eq_refl) as (Ha & Hlog & Hnp).
  split; [exact Ha|]. split; [|exact Hnp]. rewrite Hlog. reflexivity.
Defined.

(** ** Generation failures *)

Lemma http_error_msg_truthy r :
  truthy (http_error_msg r) = true <-> 400 <= status_code r < 600.
Proof.
  unfold http_error_msg.
  destruct (Z.leb_spec 400 (status_code r)), (Z.ltb_spec (status_code r) 500),
    (Z.leb_spec 500 (status_code r)), (Z.ltb_spec (status_code r) 600);
    simpl; try lia; try (split; [discriminate|lia]);
    (split; [lia|intros _]); by destruct (str_of_Z (status_code r)).
Qed.

Lemma ollama_generate_run (w : World) (prompt : text) (log : list event) :
  _ollama_generate prompt None None 120 w log
  = (match w_post w (gen_url w) (gen_model w) prompt 120 with
     | Raises e => Raises e
     | Returns r =>
         if truthy (http_error_msg r)
         then Raises (Exn HTTPError (http_error_msg r))
         else match json_body r with
              | Raises e => Raises e
              | Returns (JObject fields) =>
                  Returns (default [] (fields !! "response"%string))
              | Returns (JNotObject kind) =>
                  Raises (Exn AttributeError (no_get_msg kind))
              end
     end,
     log ++ [EvPost (gen_url w) (gen_model w) prompt 120]).
Proof.
  unfold _ollama_generate, getenv, mbind, M_bind, bind, call, raise_for_status, lift.
  simpl. fold (gen_model w). fold (gen_url w).
  destruct (w_post w (gen_url w) (gen_model w) prompt 120) as [r|e]; [|done].
  destruct (truthy (http_error_msg r)); [done|]. simpl.
  destruct (json_body r) as [[fields|]|e]; done.
Qed.

(** The generation call raises exactly in the listed cases. *)
Lemma ollama_generate_raises (w : World) (prompt : text) (log : list event) e :
  fst (_ollama_generate prompt None None 120 w log) = Raises e
  <-> generation_fails w prompt e.
Proof.
  rewrite ollama_generate_run. simpl. split.
  - destruct (w_post w (gen_url w) (gen_model w) prompt 120) as [r|e0] eqn:Hp.
    + destruct (truthy (http_error_msg r)) eqn:Ht.
      * intros [= <-]. apply fails_status; [done|].
        exact (proj1 (http_error_msg_truthy _) Ht).
      * assert (~ 400 <= status_code r < 600).
        { intros H. apply (proj2 (http_error_msg_truthy r)) in H.
          congruence. }
        destruct (json_body r) as [[fields|kind]|e1] eqn:Hj; [done| |].
        -- intros [= <-]. by eapply fails_shape.
        -- intros [= <-]. by eapply fails_decode.
    + intros [= <-]. by apply fails_request.
  - intros [e0 Hp|r Hp Hs|r e0 Hp Hs Hj|r kind Hp Hs Hj]; rewrite Hp.
    + done.
    + apply (proj2 (http_error_msg_truthy r)) in Hs. by rewrite Hs.
    + destruct (truthy (http_error_msg r)) eqn:Ht;
        [by apply (proj1 (http_error_msg_truthy _)) in Ht|]. by rewrite Hj.
    + destruct (truthy (http_error_msg r)) eqn:Ht;
        [by apply (proj1 (http_error_msg_truthy _)) in Ht|]. by rewrite Hj.
Qed.

(** C5 (as the code has it): when retrieval found context and the call
    to the generation service fails, that is, the request raises (as
    for a network error or a timeout), or the reply has a 4xx or 5xx
    status (such as 500), or its body is not JSON or not a JSON object,
    [answer] does not raise: after the one request it returns the fixed
    text that tells to check that Ollama is running and the two
    settings, followed by ["Error: "] and the text of the exception. *)
Theorem answer_llm_failure (w : World) (q : text) (k : Z)
    (p : text * metadata) (ps : list (text * metadata)) (log : list event) (e : exn) :
  run (retrieve q k) w = (Returns (p :: ps), log) ->
  generation_fails w (full_prompt q (p :: ps)) e ->
  fst (_ollama_generate (full_prompt q (p :: ps)) None None 120 w log) = Raises e /\
  run (answer q k) w
  = (Returns (LLM_FAILED ++ text_of "Error: " ++ exn_msg e),
     log ++ [EvPost (gen_url w) (gen_model w) (full_prompt q (p :: ps)) 120]).
Proof.
  intros Hr Hf. rewrite answer_run, Hr.
  apply (ollama_generate_raises w _ log) in Hf. split; [exact Hf|].
  rewrite ollama_generate_run in *. simpl in Hf. by rewrite Hf.
Qed.

Lemma answer_llm_failure_witness :
  let q := text_of "What does MDF cover?" in
  fst (run (answer q 1) failing_world)
  = Returns
      (text_of "LLM call failed. Check that Ollama is running and `OLLAMA_HOST`/`OLLAMA_MODEL` are set."
       ++ [LF; LF]
       ++ text_of "Error: 500 Server Error: Internal Server Error for url: http://localhost:11434/api/generate").
Proof.
  intros q.
  pose (p := (text_of "MDF covers co-marketing funds.",
              chunk_metadata (text_of "data/docs/faq.txt") 0)).
  pose (r := Response 500 (text_of "Internal Server Error")
               (text_of "http://localhost:11434/api/generate")
               (Raises (Exn JSONDecodeError (text_of "Expecting value")))).
  destruct (answer_llm_failure failing_world q 1 p []
              [EvOpenCollection; EvQuery [q] 1] (Exn HTTPError (http_error_msg r)))
    as [_ H].
  - reflexivity.
  - apply (fails_status failing_world (full_prompt q [p]) r); [reflexivity|simpl; lia].
  - rewrite H. reflexivity.
Defined.

(** C5 as stated fails: a reply with status 302 is not a 2xx reply, yet
    with a JSON object as its body [answer] returns the text under
    [response], which holds no ["Error:"]. *)
Lemma answer_non_2xx_counterexample :
  let q := text_of "What does MDF cover?" in
  (exists r, w_post redirect_world (gen_url redirect_world) (gen_model redirect_world)
               (full_prompt q [(text_of "MDF covers co-marketing funds.",
                                chunk_metadata (text_of "data/docs/faq.txt") 0)]) 120
             = Returns r /\ status_code r = 302 /\ ~ 200 <= status_code r < 300) /\
  run (answer q 1) redirect_world
  = (Returns (text_of "ok"),
     [EvOpenCollection; EvQuery [q] 1;
      EvPost (text_of "http://localhost:11434/api/generate") (text_of "granite3.3:8b")
        (full_prompt q [(text_of "MDF covers co-marketing funds.",
                         chunk_metadata (text_of "data/docs/faq.txt") 0)]) 120]) /\
  ~ infix_of (text_of "Error:") (text_of "ok").
Proof.
  intros q. split; [|split].
  - eexists. split; [reflexivity|]. split; [reflexivity|]. simpl. lia.
  - reflexivity.
  - intros (pre & post & H). apply (f_equal length) in H.
    rewrite !length_app in H. simpl in H. lia.
Qed.

(** ** Indexing *)

Lemma load_file_run (w : World) (fpath : text) (log : list event) :
  exists log', load_file fpath w log = (Returns (file_text w fpath), log').
Proof.
  unfold load_file, file_text, try_except, read_pdf, read_txt, print,
    mbind, M_bind, bind, call, mret, M_ret, ret.
  destruct (text_eqb _ _); simpl.
  - destruct (w_pdf_pages w fpath); eauto.
  - destruct (w_read_text w fpath); eauto.
Qed.

Lemma add_chunks_spec fpath j chunks texts metadatas ids :
  exists metadatas',
    add_chunks fpath j chunks (texts, metadatas, ids)
    = (texts ++ chunks, metadatas',
       ids ++ List.map (chunk_id fpath) (seq j (length chunks))).
Proof.
  revert j texts metadatas ids.
  induction chunks as [|ch chunks IH]; intros j texts metadatas ids; simpl.
  - exists metadatas. by rewrite !app_nil_r.
  - destruct (IH (S j) (texts ++ [ch]) (metadatas ++ [chunk_metadata fpath j])
                (ids ++ [chunk_id fpath j])) as (ms & ->).
    exists ms. by rewrite <- !app_assoc.
Qed.

Lemma index_loop_run (w : World) (files : list text) texts metadatas ids log :
  exists metadatas' log',
    index_loop files (texts, metadatas, ids) w log
    = (Returns (texts ++ indexed_texts w files, metadatas',
                ids ++ indexed_ids w files), log').
Proof.
  revert texts metadatas ids log.
  induction files as [|f files IH]; intros texts metadatas ids log.
  - exists metadatas, log. unfold indexed_texts, indexed_ids. simpl.
    by rewrite !app_nil_r.
  - cbn [index_loop]. unfold mbind, M_bind, bind.
    destruct (load_file_run w f log) as (log1 & ->).
    unfold indexed_texts, indexed_ids, file_ids, file_chunks. cbn [List.map List.concat].
    destruct (file_text w f) as [raw|].
    + destruct (add_chunks_spec f 0 (chunk_text raw CHUNK_SIZE CHUNK_OVERLAP)
                  texts metadatas ids) as (ms & ->).
      destruct (IH (texts ++ chunk_text raw CHUNK_SIZE CHUNK_OVERLAP) ms
                  (ids ++ List.map (chunk_id f)
                            (seq 0 (length (chunk_text raw CHUNK_SIZE CHUNK_OVERLAP))))
                  log1) as (ms' & log' & ->).
      exists ms', log'. by rewrite <- !app_assoc.
    + destruct (IH texts metadatas ids log1) as (ms' & log' & ->).
      by exists ms', log'.
Qed.

Lemma index_batch_run (w : World) (files : list text) :
  w_open_collection w = Returns tt ->
  exists metadatas log,
    run (index_batch files) w
    = (Returns (indexed_texts w files, metadatas, indexed_ids w files), log).
Proof.
  intros Ho. unfold run, index_batch, build_collection, try_except,
    mbind, M_bind, bind, call. simpl. rewrite Ho.
  destruct (w_delete w); simpl;
    destruct (index_loop_run w files [] [] [] [EvOpenCollection; EvDelete])
      as (ms & log & ->); by exists ms, log.
Qed.

Lemma chunk_text_blank (raw : text) size overlap :
  forallb isspace raw = true -> chunk_text raw size overlap = [].
Proof.
  intros Hb. rewrite chunk_text_spec.
  induction (offsets _ _) as [|o os IH]; simpl; [done|].
  destruct (keep_chunk (window raw size o)) eqn:K; [|done].
  apply keep_chunk_true in K as (x & Hx & Hs).
  unfold window, py_slice in Hx.
  apply subseteq_take, subseteq_drop in Hx.
  rewrite forallb_forall in Hb. apply list_elem_of_In, Hb in Hx. congruence.
Qed.

Lemma indexed_texts_length (w : World) (files : list text) :
  length (indexed_texts w files)
  = sum_list (List.map (fun f => length (file_chunks w f)) files).
Proof.
  unfold indexed_texts. induction files as [|f files IH]; simpl; [done|].
  by rewrite length_app, IH.
Qed.

(** C10: with a store that opens and accepts the bulk add,
    [index_files] returns the number of paths it was given (skipped and
    blank files included) and the number of chunks accumulated, which is
    the sum of the files' chunk counts; a file that could not be read
    and a file whose text is empty or all whitespace count 0 chunks, so
    a list of only such files gives [(len(files), 0)]. *)
Theorem index_files_counts (w : World) (files : list text) :
  w_open_collection w = Returns tt ->
  (forall texts metadatas ids, w_add w texts metadatas ids = Returns tt) ->
  fst (run (index_files files) w)
  = Returns (length files, length (indexed_texts w files)) /\
  length (indexed_texts w files)
  = sum_list (List.map (fun f => length (file_chunks w f)) files) /\
  (forall f, file_text w f = None -> file_chunks w f = []) /\
  (forall f raw, file_text w f = Some raw -> forallb isspace raw = true ->
                 file_chunks w f = []) /\
  ((forall f, f ∈ files ->
              file_text w f = None \/
              exists raw, file_text w f = Some raw /\ forallb isspace raw = true) ->
   fst (run (index_files files) w) = Returns (length files, 0%nat)).
Proof.
  intros Ho Ha.
  assert (Hrun : fst (run (index_files files) w)
                 = Returns (length files, length (indexed_texts w files))).
  { destruct (index_batch_run w files Ho) as (ms & log & Hb).
    unfold run in *. unfold index_files, mbind, M_bind, bind at 1. rewrite Hb.
    unfold bind, call, mret, M_ret, ret.
    destruct (truthy_list (indexed_texts w files)); simpl; [|done].
    by rewrite Ha. }
  assert (Hskip : forall f, file_text w f = None -> file_chunks w f = []).
  { intros f Hf. unfold file_chunks. by rewrite Hf. }
  assert (Hblank : forall f raw, file_text w f = Some raw ->
                     forallb isspace raw = true -> file_chunks w f = []).
  { intros f raw Hf Hb. unfold file_chunks. rewrite Hf. by apply chunk_text_blank. }
  split; [exact Hrun|]. split; [apply indexed_texts_length|].
  split; [exact Hskip|]. split; [exact Hblank|].
  intros Hall. rewrite Hrun, indexed_texts_length. do 2 f_equal.
  clear Hrun. induction files as [|f files IH]; simpl; [done|].
  rewrite IH; [|intros g Hg; apply Hall; by right].
  destruct (Hall f) as [Hf|(raw & Hf & Hb)]; [by left| |].
  - by rewrite (Hskip f Hf).
  - by rewrite (Hblank f raw Hf Hb).
Qed.

Lemma index_files_counts_witness :
  fst (run (index_files [text_of "data/docs/blank.txt"; text_of "data/docs/locked.txt"])
         blank_world)
  = Returns (2%nat, 0%nat).
Proof.
  pose proof (index_files_counts blank_world
                [text_of "data/docs/blank.txt"; text_of "data/docs/locked.txt"]
                eq_refl (fun _ _ _ => eq_refl)) as (_ & _ & _ & _ & H).
  apply H. intros f [->|[->|[]%elem_of_nil]%elem_of_cons]%elem_of_cons.
  - right. exists [LF; LF]. split; reflexivity.
  - left. reflexivity.
Defined.

(** The scenario of one short file: one file, one chunk. *)
Example index_files_one_short_file :
  fst (run (index_files [text_of "data/docs/faq.txt"]) twin_world)
  = Returns (1%nat, 1%nat).
Proof. reflexivity. Qed.

(** ** Chunk ids *)

Lemma chars_of_uint_inj d d' : chars_of_uint d = chars_of_uint d' -> d = d'.
Proof.
  revert d'. induction d; intros []; simpl; try discriminate; try done;
    intros [= H]; f_equal; by apply IHd.
Qed.

Lemma chars_of_uint_no_dash d : DASH ∉ chars_of_uint d.
Proof.
  induction d; simpl; [apply not_elem_of_nil|..];
    (intros [?|?]%elem_of_cons; [discriminate|done]).
Qed.

Lemma str_of_nat_inj j k : str_of_nat j = str_of_nat k -> j = k.
Proof. intros H%chars_of_uint_inj. by apply Unsigned.to_uint_inj. Qed.

Lemma app_sep_inj (x : char) l1 r1 l2 r2 :
  x ∉ r1 -> x ∉ r2 -> l1 ++ x :: r1 = l2 ++ x :: r2 -> l1 = l2 /\ r1 = r2.
Proof.
  intros H1 H2. revert l2.
  induction l1 as [|a l1 IH]; intros [|b l2]; simpl; intros Heq.
  - by injection Heq as ->.
  - injection Heq as Ha Hb. destruct H1. rewrite Hb. apply elem_of_app. right. by left.
  - injection Heq as Ha Hb. destruct H2. rewrite <- Hb. apply elem_of_app. right. by left.
  - injection Heq as Ha Hb. destruct (IH _ Hb) as [-> ->]. by subst.
Qed.

Lemma chunk_id_inj f j g k :
  chunk_id f j = chunk_id g k -> basename f = basename g /\ j = k.
Proof.
  unfold chunk_id. simpl. intros H.
  apply app_sep_inj in H as [Hb Hd]; [|apply chars_of_uint_no_dash..].
  split; [done|]. by apply str_of_nat_inj.
Qed.

Lemma NoDup_map_inj {A B} (f : A -> B) (l : list A) :
  (forall a b, f a = f b -> a = b) -> NoDup l -> NoDup (List.map f l).
Proof.
  intros Hinj. induction 1 as [|a l Ha Hl IH]; simpl; constructor; [|done].
  intros Hin. apply list_elem_of_In, in_map_iff in Hin as (b & Hb & Hin).
  apply Hinj in Hb as ->. by apply Ha, list_elem_of_In.
Qed.

Lemma file_ids_NoDup (w : World) f : NoDup (file_ids w f).
Proof.
  unfold file_ids. apply NoDup_map_inj.
  - intros j k H. by apply chunk_id_inj in H as [_ ?].
  - apply NoDup_ListNoDup, List.seq_NoDup.
Qed.

Lemma elem_of_indexed_ids (w : World) files x :
  x ∈ indexed_ids w files -> exists f j, f ∈ files /\ x = chunk_id f j.
Proof.
  unfold indexed_ids. intros H. apply list_elem_of_In, in_concat in H as (l & Hl & Hx).
  apply in_map_iff in Hl as (f & <- & Hf).
  unfold file_ids in Hx. apply in_map_iff in Hx as (j & <- & _).
  exists f, j. split; [by apply list_elem_of_In|done].
Qed.

(** When the files have pairwise different base names, the ids of one
    bulk add are pairwise distinct. *)
Lemma indexed_ids_NoDup (w : World) (files : list text) :
  NoDup (List.map basename files) -> NoDup (indexed_ids w files).
Proof.
  induction files as [|f files IH]; simpl; intros Hnd.
  - constructor.
  - apply NoDup_cons in Hnd as [Hf Hnd].
    change (indexed_ids w (f :: files)) with (file_ids w f ++ indexed_ids w files).
    apply NoDup_app. split; [apply file_ids_NoDup|]. split; [|by apply IH].
    intros x Hx Hx'. apply elem_of_indexed_ids in Hx' as (g & k & Hg & ->).
    unfold file_ids in Hx. apply list_elem_of_In, in_map_iff in Hx as (j & Hj & _).
    apply chunk_id_inj in Hj as [Hb _]. apply Hf. rewrite Hb.
    apply list_elem_of_In, in_map, list_elem_of_In, Hg.
Qed.

(** C4 fails on the code: two different paths with the same base name,
    as the recursive scan of [collect_files] yields them, get the same
    id in one bulk add. *)
Theorem index_files_ids_collide :
  NoDup twin_files /\
  (exists texts metadatas log,
      run (index_batch twin_files) twin_world
      = (Returns (texts, metadatas, [text_of "faq.txt-0"; text_of "faq.txt-0"]), log)) /\
  (exists texts metadatas,
      EvAdd texts metadatas [text_of "faq.txt-0"; text_of "faq.txt-0"]
      ∈ snd (run (index_files twin_files) twin_world)) /\
  ~ NoDup [text_of "faq.txt-0"; text_of "faq.txt-0"].
Proof.
  split; [|split; [|split]].
  - apply NoDup_cons. split; [|apply NoDup_singleton].
    intros H%list_elem_of_singleton. discriminate H.
  - destruct (index_batch_run twin_world twin_files eq_refl) as (ms & log & ->).
    by exists (indexed_texts twin_world twin_files), ms, log.
  - destruct (index_batch_run twin_world twin_files eq_refl) as (ms & log & Hb).
    exists (indexed_texts twin_world twin_files), ms.
    unfold run in *. unfold index_files, mbind, M_bind, bind at 1. rewrite Hb.
    unfold bind, call, mret, M_ret, ret. simpl.
    apply elem_of_app. right. by left.
  - intros H%NoDup_cons. destruct H as [H _]. apply H. by left.
Qed.

(** * Further properties of the code *)

(** ** Chunking: edge cases and shape of the result *)

Lemma window_infix (T : text) (size o : Z) : infix_of (window T size o) T.
Proof.
  unfold window, py_slice.
  set (a := Z.to_nat (adjust_index _ o)). set (k := Z.to_nat _).
  exists (take a T), (drop k (drop a T)).
  by rewrite take_drop, take_drop.
Qed.

Lemma elem_of_chunk_text (T : text) size overlap c :
  c ∈ chunk_text T size overlap ->
  exists o, c = window T size o /\ keep_chunk c = true.
Proof.
  rewrite chunk_text_spec. intros H.
  apply list_elem_of_In, filter_In in H as [H K].
  apply in_map_iff in H as (o & <- & _). by exists o.
Qed.

(** A text that is empty or all whitespace gives no chunk, whatever the
    size and the overlap. *)
Theorem chunk_text_blank_text (T : text) (size overlap : Z) :
  forallb isspace T = true -> chunk_text T size overlap = [].
Proof. apply chunk_text_blank. Qed.

Lemma chunk_text_blank_text_witness :
  chunk_text [] CHUNK_SIZE CHUNK_OVERLAP = [] /\
  chunk_text (text_of "   " ++ [LF; 9%N]) 2 5 = [].
Proof.
  split.
  - apply (chunk_text_blank_text [] CHUNK_SIZE CHUNK_OVERLAP). reflexivity.
  - apply (chunk_text_blank_text (text_of "   " ++ [LF; 9%N]) 2 5). reflexivity.
Defined.

(** Every chunk returned, for any integers [size] and [overlap], is a
    contiguous block of the text and holds a non-whitespace character
    (so it is never empty). *)
Theorem chunk_text_chunks_are_nonblank_blocks (T : text) (size overlap : Z) :
  Forall (fun c => infix_of c T /\ c <> [] /\
                   exists x, x ∈ c /\ isspace x = false)
    (chunk_text T size overlap).
Proof.
  apply Forall_forall. intros c Hc.
  apply elem_of_chunk_text in Hc as (o & -> & K).
  apply keep_chunk_true in K as (x & Hx & Hs).
  split; [apply window_infix|]. split; [|by exists x].
  intros E. rewrite E in Hx. by apply elem_of_nil in Hx.
Qed.

(** A non-blank text no longer than the size and than the step is one
    chunk, the text itself; with the defaults that is every non-blank
    text of up to 680 characters. *)
Theorem chunk_text_short_text (T : text) (size overlap : Z) :
  0 < size ->
  Z.of_nat (length T) <= size ->
  Z.of_nat (length T) <= Z.max 1 (size - overlap) ->
  forallb isspace T = false ->
  chunk_text T size overlap = [T].
Proof.
  intros Hs Hn Hstep Hb. rewrite chunk_text_spec. unfold offsets.
  destruct T as [|c T]; [done|].
  set (n := Z.of_nat (length (c :: T))) in *.
  assert (Hpos : 0 < n) by (unfold n; simpl; lia).
  destruct (Z.to_nat n) as [|fuel] eqn:Ef; [lia|]. simpl offsets_from.
  destruct (Z.ltb_spec 0 n); [|lia].
  assert (Hrest : offsets_from fuel n (Z.max 1 (size - overlap))
                    (0 + Z.max 1 (size - overlap)) = []).
  { destruct fuel; simpl; destruct (Z.ltb_spec (0 + Z.max 1 (size - overlap)) n);
      done || lia. }
  rewrite Hrest. simpl.
  assert (Hw : window (c :: T) size 0 = c :: T).
  { unfold window. rewrite py_slice_take_drop by lia. simpl drop.
    apply take_ge. fold n in Hn. unfold n in Hn. lia. }
  rewrite Hw.
  assert (K : keep_chunk (c :: T) = true).
  { unfold keep_chunk. destruct (strip (c :: T)) eqn:E; [|done].
    apply strip_nil in E. congruence. }
  by rewrite K.
Qed.

Lemma chunk_text_short_text_witness :
  chunk_text (text_of "MDF covers co-marketing funds.") CHUNK_SIZE CHUNK_OVERLAP
  = [text_of "MDF covers co-marketing funds."].
Proof.
  apply (chunk_text_short_text (text_of "MDF covers co-marketing funds.")
           CHUNK_SIZE CHUNK_OVERLAP); [reflexivity|vm_compute; discriminate
                                      |vm_compute; discriminate|reflexivity].
Defined.

Lemma offsets_from_length_le fuel n step i :
  1 <= step -> 0 <= n - i ->
  Z.of_nat (length (offsets_from fuel n step i)) <= ceil_div (n - i) step.
Proof.
  intros Hs Hi.
  pose proof (ceil_div_bounds (n - i) step ltac:(lia)) as Hb.
  assert (0 <= ceil_div (n - i) step) by nia.
  destruct (Nat.le_gt_cases (Z.to_nat (n - i)) fuel) as [Hf|Hf].
  - rewrite (offsets_from_length (Z.to_nat (ceil_div (n - i) step))); lia.
  - revert i Hi Hb H Hf. induction fuel as [|fuel IH]; intros i Hi Hb H Hf; simpl.
    + destruct (i <? n); simpl; lia.
    + destruct (Z.ltb_spec i n); simpl; [|lia].
      pose proof (ceil_div_bounds (n - (i + step)) step ltac:(lia)) as Hb'.
      destruct (Z.le_gt_cases 0 (n - (i + step))).
      * specialize (IH (i + step) ltac:(lia) Hb' ltac:(nia)).
        destruct (Nat.le_gt_cases (Z.to_nat (n - (i + step))) fuel) as [Hf'|Hf'].
        -- rewrite (offsets_from_length (Z.to_nat (ceil_div (n - (i + step)) step)));
             [nia|lia|lia|nia].
        -- specialize (IH Hf'). nia.
      * destruct fuel; simpl; destruct (Z.ltb_spec (i + step) n); simpl; try lia; nia.
Qed.

(** The number of chunks is at most [ceil(len(text) / step)] with
    [step = max(1, size - overlap)], hence at most the number of
    characters, for any integers [size] and [overlap]. *)
Theorem chunk_text_count_bound (T : text) (size overlap : Z) :
  Z.of_nat (length (chunk_text T size overlap))
  <= ceil_div (Z.of_nat (length T)) (Z.max 1 (size - overlap))
  /\ ceil_div (Z.of_nat (length T)) (Z.max 1 (size - overlap))
     <= Z.of_nat (length T).
Proof.
  set (n := Z.of_nat (length T)). set (step := Z.max 1 (size - overlap)).
  pose proof (ceil_div_bounds n step ltac:(lia)) as Hb.
  split; [|nia].
  rewrite chunk_text_spec. fold n step.
  pose proof (offsets_from_length_le (Z.to_nat n) n step 0 ltac:(lia) ltac:(lia)) as Hl.
  rewrite Z.sub_0_r in Hl. fold (offsets n step) in Hl.
  rewrite <- (length_map (window T size)) in Hl.
  assert (length (List.filter keep_chunk (List.map (window T size) (offsets n step)))
          <= length (List.map (window T size) (offsets n step)))%nat; [|lia].
  clear. induction (List.map _ _) as [|c l IH]; simpl; [done|].
  destruct (keep_chunk c); simpl; lia.
Qed.

Lemma chunk_text_all_windows (T : text) size overlap :
  all_windows_kept T size overlap = true ->
  chunk_text T size overlap
  = List.map (window T size)
      (offsets (Z.of_nat (length T)) (Z.max 1 (size - overlap))).
Proof.
  intros Hk. rewrite chunk_text_spec. apply filter_all. intros c Hc.
  apply list_elem_of_In, in_map_iff in Hc as (o & <- & Ho).
  unfold all_windows_kept in Hk. rewrite forallb_forall in Hk. by apply Hk.
Qed.

Lemma map_lookup_Some {A B} (f : A -> B) (l : list A) k b :
  List.map f l !! k = Some b -> exists a, l !! k = Some a /\ b = f a.
Proof.
  revert k. induction l as [|x l IH]; intros [|k]; simpl; try done.
  - intros [= <-]. by exists x.
  - apply IH.
Qed.

Lemma offsets_from_lookup fuel n step i k o :
  offsets_from fuel n step i !! k = Some o ->
  o = i + Z.of_nat k * step /\ o < n.
Proof.
  revert i k. induction fuel as [|fuel IH]; intros i k; simpl;
    destruct (Z.ltb_spec i n); try done.
  destruct k as [|k]; simpl.
  - intros [= <-]. lia.
  - intros H'. apply IH in H'. lia.
Qed.

(** When no window is blank, consecutive chunks overlap: what follows
    the first [size - overlap] characters of a chunk is the first
    [overlap] characters of the next one. *)
Theorem chunk_text_consecutive_overlap (T : text) (size overlap : Z)
    (k : nat) (a b : text) :
  0 < overlap -> overlap < size ->
  all_windows_kept T size overlap = true ->
  chunk_text T size overlap !! k = Some a ->
  chunk_text T size overlap !! S k = Some b ->
  drop (Z.to_nat (size - overlap)) a = take (Z.to_nat overlap) b.
Proof.
  intros Ho Hlt Hk Ha Hb. rewrite chunk_text_all_windows in Ha, Hb by done.
  apply map_lookup_Some in Ha as (o & Ha & ->).
  apply map_lookup_Some in Hb as (o' & Hb & ->).
  apply offsets_from_lookup in Ha as [-> _]. apply offsets_from_lookup in Hb as [-> _].
  replace (Z.max 1 (size - overlap)) with (size - overlap) by lia.
  unfold window. rewrite !py_slice_take_drop by nia.
  set (s := Z.to_nat (size - overlap)).
  replace (Z.to_nat size) with (s + Z.to_nat overlap)%nat by lia.
  rewrite <- take_drop_commute, drop_drop, take_take.
  replace (Z.to_nat (0 + Z.of_nat (S k) * (size - overlap)))
    with (Z.to_nat (0 + Z.of_nat k * (size - overlap)) + s)%nat by nia.
  f_equal. lia.
Qed.

Lemma chunk_text_consecutive_overlap_witness :
  drop 3 (text_of "abcd") = take 1 (text_of "defg").
Proof.
  apply (chunk_text_consecutive_overlap (text_of "abcdefghij") 4 1 0
           (text_of "abcd") (text_of "defg")); [lia|lia|reflexivity..].
Defined.

Lemma concat_steps (T : text) size step fuel i :
  1 <= step -> step <= size -> 0 <= i ->
  Z.of_nat (length T) - i <= Z.of_nat fuel ->
  List.concat
    (List.map (fun o => take (Z.to_nat step) (window T size o))
       (offsets_from fuel (Z.of_nat (length T)) step i))
  = drop (Z.to_nat i) T.
Proof.
  intros Hs Hsz. revert i. induction fuel as [|fuel IH]; intros i Hi Hf; simpl;
    destruct (Z.ltb_spec i (Z.of_nat (length T))); try lia;
    try (by rewrite drop_ge by lia).
  simpl. rewrite IH by lia.
  unfold window. rewrite py_slice_take_drop by lia.
  rewrite take_take, Nat.min_l by lia.
  replace (Z.to_nat (i + step)) with (Z.to_nat i + Z.to_nat step)%nat by lia.
  rewrite <- drop_drop. apply take_drop.
Qed.

(** When no window is blank and [0 <= overlap < size], nothing of the
    text is lost: the first [size - overlap] characters of each chunk,
    put one after the other, are the text. *)
Theorem chunk_text_reassembles (T : text) (size overlap : Z) :
  0 <= overlap -> overlap < size ->
  all_windows_kept T size overlap = true ->
  List.concat (List.map (take (Z.to_nat (size - overlap))) (chunk_text T size overlap))
  = T.
Proof.
  intros Ho Hlt Hk. rewrite chunk_text_all_windows by done.
  rewrite List.map_map. replace (Z.max 1 (size - overlap)) with (size - overlap) by lia.
  unfold offsets. rewrite concat_steps; [done|lia..].
Qed.

Lemma chunk_text_reassembles_witness :
  List.concat (List.map (take 3) (chunk_text (text_of "abcdefghij") 4 1))
  = text_of "abcdefghij".
Proof.
  apply (chunk_text_reassembles (text_of "abcdefghij") 4 1); [lia|lia|reflexivity].
Defined.

(** With [size = 0] every slice is empty, so no chunk is returned
    whatever the text. *)
Theorem chunk_text_size_zero (T : text) (overlap : Z) :
  chunk_text T 0 overlap = [].
Proof.
  destruct (chunk_text T 0 overlap) as [|c l] eqn:E; [done|].
  assert (Hc : c ∈ chunk_text T 0 overlap) by (rewrite E; by left).
  apply elem_of_chunk_text in Hc as (o & -> & K).
  apply keep_chunk_true in K as (x & Hx & _).
  unfold window, py_slice in Hx. rewrite Z.add_0_r, Z.sub_diag in Hx.
  by apply elem_of_nil in Hx.
Qed.

(** ** Reading files: edge cases *)

Lemma lstrip_id s :
  (forall c, head s = Some c -> isspace c = false) -> lstrip s = s.
Proof.
  destruct s as [|c s]; simpl; [done|]. intros H. by rewrite (H c).
Qed.

Lemma strip_idemp s : strip (strip s) = strip s.
Proof.
  unfold strip at 1.
  rewrite (lstrip_id (strip s)) by apply strip_head.
  unfold rstrip. rewrite lstrip_id; [apply rev_involutive|].
  intros c Hc. apply (rstrip_last (lstrip s)). fold (strip s).
  rewrite <- Hc. destruct (strip s) as [|x l] using rev_ind; [done|].
  by rewrite rev_app_distr, last_snoc.
Qed.

Lemma normalize_txt_idemp txt : normalize_txt (normalize_txt txt) = normalize_txt txt.
Proof.
  unfold normalize_txt at 1.
  rewrite remove_char_id by apply normalize_txt_no_cr.
  rewrite normalize_txt_lines, List.map_map. unfold normalize_txt. f_equal.
  apply List.map_ext. intros l. apply strip_idemp.
Qed.

Lemma read_txt_run (w : World) (path : text) :
  run (read_txt path) w
  = (match w_read_text w path with
     | Returns txt => Returns (normalize_txt txt)
     | Raises e => Raises e
     end, [EvReadText path]).
Proof.
  unfold run, read_txt, mbind, M_bind, bind, call, mret, M_ret, ret. simpl.
  by destruct (w_read_text w path).
Qed.

(** Normalising is idempotent: a file that holds text [read_txt]
    produced is read back unchanged. *)
Theorem read_txt_idempotent (w : World) (path txt : text) :
  w_read_text w path = Returns (normalize_txt txt) ->
  fst (run (read_txt path) w) = Returns (normalize_txt txt).
Proof.
  intros Hr. rewrite read_txt_run, Hr. simpl. by rewrite normalize_txt_idemp.
Qed.

Lemma read_txt_idempotent_witness :
  fst (run (read_txt (text_of "data/docs/faq.txt"))
         (world_of (fun _ => Returns (normalize_txt indented_file)) empty_reply no_server))
  = Returns (normalize_txt indented_file).
Proof.
  apply (read_txt_idempotent
           (world_of (fun _ => Returns (normalize_txt indented_file)) empty_reply no_server)
           (text_of "data/docs/faq.txt") indented_file).
  reflexivity.
Defined.

Lemma split_length sep s : length (split sep s) = S (count_char sep s).
Proof.
  unfold count_char. induction s as [|c s IH]; simpl; [done|].
  rewrite (N.eqb_sym sep c). destruct (c =? sep)%N; simpl; [by rewrite IH|].
  destruct (split sep s); simpl in *; lia.
Qed.

Lemma count_char_remove c d s :
  c <> d -> count_char c (remove_char d s) = count_char c s.
Proof.
  intros Hne. unfold count_char. induction s as [|x s IH]; simpl; [done|].
  destruct (N.eqb_spec x d) as [->|_]; simpl.
  - destruct (N.eqb_spec c d); [done|]. exact IH.
  - destruct (c =? x)%N; simpl; by rewrite IH.
Qed.

(** [read_txt] keeps the number of lines: blank lines become empty
    lines, none is dropped or added. *)
Theorem read_txt_keeps_line_count (w : World) (path txt : text) :
  w_read_text w path = Returns txt ->
  exists out,
    fst (run (read_txt path) w) = Returns out /\
    length (split LF out) = S (count_char LF txt) /\
    count_char LF out = count_char LF txt.
Proof.
  intros Hr. exists (normalize_txt txt). rewrite read_txt_run, Hr.
  assert (Hlen : length (split LF (normalize_txt txt)) = S (count_char LF txt)).
  { rewrite normalize_txt_lines, length_map, split_length. f_equal.
    by apply count_char_remove. }
  split; [done|]. split; [done|].
  rewrite split_length in Hlen. by injection Hlen.
Qed.

Lemma read_txt_keeps_line_count_witness :
  exists out,
    fst (run (read_txt (text_of "data/docs/blank.txt")) blank_world) = Returns out /\
    length (split LF out) = 3%nat /\ count_char LF out = 2%nat.
Proof.
  apply (read_txt_keeps_line_count blank_world (text_of "data/docs/blank.txt")
           (text_of "   " ++ [LF; 9%N; LF])).
  reflexivity.
Defined.

Lemma load_file_log (w : World) (fpath : text) (log : list event) :
  load_file fpath w log = (Returns (file_text w fpath), log ++ file_events w fpath).
Proof.
  unfold load_file, file_text, file_events, is_pdf, skip_line, try_except,
    read_pdf, read_txt, print, mbind, M_bind, bind, call, mret, M_ret, ret.
  destruct (text_eqb _ _); simpl.
  - destruct (w_pdf_pages w fpath); simpl; [done|by rewrite <- app_assoc].
  - destruct (w_read_text w fpath); simpl; [done|by rewrite <- app_assoc].
Qed.

(** A file that cannot be read never stops the run: the exception is
    caught, one line ["[skip] <path>: <error>"] is printed and the file
    is passed over. *)
Theorem load_file_skips_unreadable (w : World) (fpath : text) (e : exn) :
  (if is_pdf fpath then w_pdf_pages w fpath = Raises e
   else w_read_text w fpath = Raises e) ->
  run (load_file fpath) w
  = (Returns None,
     [if is_pdf fpath then EvReadPdf fpath else EvReadText fpath;
      EvPrint (text_of "[skip] " ++ fpath ++ text_of ": " ++ exn_msg e)]).
Proof.
  intros H. unfold run. rewrite load_file_log. unfold file_text, file_events.
  fold (is_pdf fpath). destruct (is_pdf fpath); by rewrite H.
Qed.

Lemma load_file_skips_unreadable_witness :
  run (load_file (text_of "data/docs/locked.txt")) blank_world
  = (Returns None,
     [EvReadText (text_of "data/docs/locked.txt");
      EvPrint (text_of "[skip] data/docs/locked.txt: Permission denied")]).
Proof.
  apply (load_file_skips_unreadable blank_world (text_of "data/docs/locked.txt")
           (Exn OSError (text_of "Permission denied"))).
  reflexivity.
Defined.

Lemma after_last_app sep l r cur :
  sep ∉ r -> after_last sep (l ++ sep :: r) cur = r.
Proof.
  intros Hr. revert cur. induction l as [|c l IH]; intros cur; cbn [after_last app].
  - rewrite N.eqb_refl. clear cur.
    assert (H : forall s cur', sep ∉ s -> after_last sep s cur' = cur').
    { induction s as [|x s IHs]; intros cur' Hs; cbn [after_last]; [done|].
      destruct (N.eqb_spec x sep) as [->|_]; [by destruct Hs; left|].
      apply IHs. intros ?. apply Hs. by right. }
    by apply H.
  - destruct (c =? sep)%N; apply IH.
Qed.

Lemma splitext_ext_of_name (p stem ext : text) (c : char) :
  basename p = stem ++ DOT :: ext ->
  head stem = Some c -> c <> DOT -> DOT ∉ ext ->
  splitext_ext p = DOT :: ext.
Proof.
  intros Hb Hh Hc He. unfold splitext_ext. rewrite Hb.
  destruct stem as [|x stem]; [done|]. simpl in Hh. injection Hh as ->.
  simpl lstrip_dots. destruct (N.eqb_spec c DOT); [done|].
  assert (Hex : existsb (N.eqb DOT) ((c :: stem) ++ DOT :: ext) = true).
  { rewrite existsb_app. apply orb_true_iff. right. cbn [existsb].
    by rewrite N.eqb_refl. }
  change (c :: stem ++ DOT :: ext) with ((c :: stem) ++ DOT :: ext).
  rewrite Hex. f_equal. by apply after_last_app.
Qed.

(** The reader is chosen by the extension after the last dot of the
    file name, letter case ignored: [.pdf], [.PDF], ... go to the PDF
    reader, every other extension (also an unknown one) is read as
    text. *)
Theorem load_file_reader_by_extension (w : World) (p stem ext : text) (c : char) :
  basename p = stem ++ DOT :: ext ->
  head stem = Some c -> c <> DOT -> DOT ∉ ext ->
  head (snd (run (load_file p) w))
  = Some (if text_eqb (lower ext) (text_of "pdf") then EvReadPdf p else EvReadText p).
Proof.
  intros Hb Hh Hc He. unfold run. rewrite load_file_log. simpl.
  unfold file_events, is_pdf.
  rewrite (splitext_ext_of_name p stem ext c) by done.
  unfold text_eqb. simpl lower.
  destruct (decide (lower ext = text_of "pdf")) as [E|E].
  - rewrite E. rewrite !bool_decide_eq_true_2 by done. done.
  - rewrite !bool_decide_eq_false_2; [done|done|].
    intros [= H]. by apply E.
Qed.

Lemma load_file_reader_by_extension_witness :
  head (snd (run (load_file (text_of "data/docs/emea/Price.List.PDF")) blank_world))
  = Some (EvReadPdf (text_of "data/docs/emea/Price.List.PDF")) /\
  head (snd (run (load_file (text_of "data/docs/notes.md")) blank_world))
  = Some (EvReadText (text_of "data/docs/notes.md")).
Proof.
  split.
  - apply (load_file_reader_by_extension blank_world
             (text_of "data/docs/emea/Price.List.PDF") (text_of "Price.List")
             (text_of "PDF") 80%N); [reflexivity|reflexivity|discriminate|].
    vm_compute. intros H. repeat (apply elem_of_cons in H as [H|H]; [discriminate|]).
    by apply elem_of_nil in H.
  - apply (load_file_reader_by_extension blank_world
             (text_of "data/docs/notes.md") (text_of "notes")
             (text_of "md") 110%N); [reflexivity|reflexivity|discriminate|].
    vm_compute. intros H. repeat (apply elem_of_cons in H as [H|H]; [discriminate|]).
    by apply elem_of_nil in H.
Defined.

Lemma join_blank (parts : list text) :
  forallb (forallb isspace) parts = true -> forallb isspace (join [LF] parts) = true.
Proof.
  induction parts as [|p ps IH]; simpl; [done|].
  intros [Hp Hps]%andb_true_iff. destruct ps as [|q ps]; [done|].
  rewrite forallb_app, Hp. simpl. by apply IH.
Qed.

(** A PDF whose pages have no extractable text (an image-only scan)
    reads as newlines only and contributes no chunk. *)
Theorem read_pdf_without_text (w : World) (path : text) (pages : list (option text)) :
  w_pdf_pages w path = Returns pages ->
  forallb (fun pg => forallb isspace (default [] pg)) pages = true ->
  exists raw,
    run (read_pdf path) w = (Returns raw, [EvReadPdf path]) /\
    forallb isspace raw = true /\
    chunk_text raw CHUNK_SIZE CHUNK_OVERLAP = [].
Proof.
  intros Hp Hb. exists (join [LF] (List.map (default []) pages)).
  assert (Hraw : forallb isspace (join [LF] (List.map (default []) pages)) = true).
  { apply join_blank. clear Hp. induction pages as [|pg pages IH]; simpl in *; [done|].
    apply andb_true_iff in Hb as [-> Hb]. by apply IH. }
  split; [|split; [done|by apply chunk_text_blank]].
  unfold run, read_pdf, mbind, M_bind, bind, call, mret, M_ret, ret. simpl.
  by rewrite Hp.
Qed.

Lemma read_pdf_without_text_witness :
  let w := world_of no_file empty_reply no_server in
  let w' := {| w_open_collection := w_open_collection w; w_delete := w_delete w;
               w_add := w_add w; w_query := w_query w; w_read_text := w_read_text w;
               w_pdf_pages := fun _ => Returns [None; Some []; Some [32%N]];
               w_getenv := w_getenv w; w_post := w_post w |} in
  exists raw,
    run (read_pdf (text_of "data/docs/scan.pdf")) w'
    = (Returns raw, [EvReadPdf (text_of "data/docs/scan.pdf")]) /\
    forallb isspace raw = true /\
    chunk_text raw CHUNK_SIZE CHUNK_OVERLAP = [].
Proof.
  intros w w'.
  apply (read_pdf_without_text w' (text_of "data/docs/scan.pdf")
           [None; Some []; Some [32%N]]); reflexivity.
Defined.

(** ** Indexing: the bulk add and the calls made *)

Lemma add_chunks_full fpath j chunks texts metadatas ids :
  add_chunks fpath j chunks (texts, metadatas, ids)
  = (texts ++ chunks,
     metadatas ++ List.map (chunk_metadata fpath) (seq j (length chunks)),
     ids ++ List.map (chunk_id fpath) (seq j (length chunks))).
Proof.
  revert j texts metadatas ids.
  induction chunks as [|ch chunks IH]; intros j texts metadatas ids; simpl.
  - by rewrite !app_nil_r.
  - rewrite IH. by rewrite <- !app_assoc.
Qed.

Lemma index_loop_full (w : World) (files : list text) texts metadatas ids log :
  index_loop files (texts, metadatas, ids) w log
  = (Returns (texts ++ indexed_texts w files,
              metadatas ++ indexed_metadatas w files,
              ids ++ indexed_ids w files),
     log ++ List.concat (List.map (file_events w) files)).
Proof.
  revert texts metadatas ids log.
  induction files as [|f files IH]; intros texts metadatas ids log.
  - unfold indexed_texts, indexed_metadatas, indexed_ids. simpl.
    by rewrite !app_nil_r.
  - cbn [index_loop]. unfold mbind, M_bind, bind. rewrite load_file_log.
    unfold indexed_texts, indexed_metadatas, indexed_ids, file_metadatas, file_ids,
      file_chunks.
    cbn [List.map List.concat].
    destruct (file_text w f) as [raw|].
    + rewrite add_chunks_full, IH. by rewrite <- !app_assoc.
    + rewrite IH. simpl. by rewrite <- !app_assoc.
Qed.

Lemma index_batch_full (w : World) (files : list text) :
  w_open_collection w = Returns tt ->
  run (index_batch files) w
  = (Returns (indexed_texts w files, indexed_metadatas w files, indexed_ids w files),
     [EvOpenCollection; EvDelete] ++ List.concat (List.map (file_events w) files)).
Proof.
  intros Ho. unfold run, index_batch, build_collection, try_except,
    mbind, M_bind, bind, call. simpl. rewrite Ho.
  destruct (w_delete w); simpl; by rewrite index_loop_full.
Qed.

Lemma index_files_full (w : World) (files : list text) :
  w_open_collection w = Returns tt ->
  run (index_files files) w
  = (if truthy_list (indexed_texts w files)
     then match w_add w (indexed_texts w files) (indexed_metadatas w files)
                  (indexed_ids w files) with
          | Returns _ => Returns (length files, length (indexed_texts w files))
          | Raises e => Raises e
          end
     else Returns (length files, length (indexed_texts w files)),
     index_events w files).
Proof.
  intros Ho. pose proof (index_batch_full w files Ho) as Hb.
  unfold run in *. unfold index_files, mbind, M_bind, bind at 1. rewrite Hb.
  unfold index_events, bind, call, mret, M_ret, ret.
  destruct (truthy_list (indexed_texts w files)); simpl.
  - by destruct (w_add w _ _ _).
  - by rewrite app_nil_r.
Qed.

(** The calls of one run, in order, when the collection opens: open,
    clear, then for each path of the list in turn one read (and one
    printed line if it fails), and last a single bulk add of all chunks,
    made only if there is at least one chunk. *)
Theorem index_files_call_sequence (w : World) (files : list text) :
  w_open_collection w = Returns tt ->
  snd (run (index_files files) w)
  = [EvOpenCollection; EvDelete]
    ++ List.concat (List.map (file_events w) files)
    ++ (if truthy_list (indexed_texts w files)
        then [EvAdd (indexed_texts w files) (indexed_metadatas w files)
                (indexed_ids w files)]
        else []) /\
  forallb (fun ev => negb (is_add ev))
    (List.concat (List.map (file_events w) files)) = true.
Proof.
  intros Ho. rewrite index_files_full by done. split; [done|].
  apply forallb_forall. intros ev Hin.
  apply in_concat in Hin as (l & Hl & Hev). apply in_map_iff in Hl as (f & <- & _).
  unfold file_events in Hev.
  destruct (is_pdf f);
    [destruct (w_pdf_pages w f)|destruct (w_read_text w f)];
    simpl in Hev; intuition (subst; done).
Qed.

Lemma index_files_call_sequence_witness :
  snd (run (index_files [text_of "data/docs/blank.txt"; text_of "data/docs/locked.txt"])
         blank_world)
  = [EvOpenCollection; EvDelete;
     EvReadText (text_of "data/docs/blank.txt");
     EvReadText (text_of "data/docs/locked.txt");
     EvPrint (text_of "[skip] data/docs/locked.txt: Permission denied")].
Proof.
  destruct (index_files_call_sequence blank_world
              [text_of "data/docs/blank.txt"; text_of "data/docs/locked.txt"] eq_refl)
    as [H _].
  rewrite H. reflexivity.
Defined.

Lemma combine_seq_fst {A} (l : list A) s :
  List.map fst (combine l (seq s (length l))) = l.
Proof.
  revert s. induction l as [|a l IH]; intros s; simpl; [done|]. by rewrite IH.
Qed.

Lemma combine_seq_snd {A} (l : list A) s :
  List.map snd (combine l (seq s (length l))) = seq s (length l).
Proof.
  revert s. induction l as [|a l IH]; intros s; simpl; [done|]. by rewrite IH.
Qed.

Lemma combine_seq_lookup {A} (l : list A) s a j :
  In (a, j) (combine l (seq s (length l))) ->
  (s <= j)%nat /\ l !! (j - s)%nat = Some a.
Proof.
  revert s. induction l as [|x l IH]; intros s; simpl; [done|].
  intros [[= -> ->]|H].
  - split; [lia|]. by rewrite Nat.sub_diag.
  - apply IH in H as [Hle Hl]. split; [lia|].
    replace (j - s)%nat with (S (j - S s)) by lia. done.
Qed.

Lemma str_of_Z_of_nat j : str_of_Z (Z.of_nat j) = str_of_nat j.
Proof.
  unfold str_of_Z. destruct (Z.ltb_spec (Z.of_nat j) 0); [lia|].
  by rewrite Nat2Z.id.
Qed.

Lemma file_rows_columns (w : World) f :
  List.map (fun r => r.1.1) (file_rows w f) = file_chunks w f /\
  List.map (fun r => r.1.2) (file_rows w f) = file_metadatas w f /\
  List.map snd (file_rows w f) = file_ids w f.
Proof.
  unfold file_rows, file_metadatas, file_ids. rewrite !List.map_map. simpl.
  split; [apply combine_seq_fst|].
  split; rewrite <- (combine_seq_snd (file_chunks w f) 0) at 2;
    by rewrite List.map_map.
Qed.

Lemma indexed_rows_columns (w : World) files :
  List.map (fun r => r.1.1) (indexed_rows w files) = indexed_texts w files /\
  List.map (fun r => r.1.2) (indexed_rows w files) = indexed_metadatas w files /\
  List.map snd (indexed_rows w files) = indexed_ids w files.
Proof.
  unfold indexed_rows, indexed_texts, indexed_metadatas, indexed_ids.
  rewrite !concat_map, !List.map_map.
  split; [|split]; f_equal; apply List.map_ext; intros f;
    by destruct (file_rows_columns w f) as (? & ? & ?).
Qed.

Lemma file_rows_row_of (w : World) f row :
  In row (file_rows w f) -> exists j, row_of w f j row.
Proof.
  unfold file_rows. intros ([ch j] & <- & Hin)%in_map_iff.
  apply combine_seq_lookup in Hin as [_ Hl]. rewrite Nat.sub_0_r in Hl.
  exists j. unfold row_of, chunk_metadata, chunk_id. simpl.
  split; [done|]. split; [by rewrite lookup_insert_eq|].
  split; [by rewrite lookup_insert_ne, lookup_insert_eq|].
  split; [by rewrite !lookup_insert_ne, lookup_singleton_eq|].
  by rewrite str_of_Z_of_nat.
Qed.

(** The three lists handed to the bulk add are the columns of one list
    of rows, so they have the same length and stay aligned; each row
    comes from one chunk of one file of the list, its metadata holds the
    file's base name, its path and the chunk's index, and its id is the
    base name, a dash and that index. *)
Theorem index_files_rows_aligned (w : World) (files : list text) :
  w_open_collection w = Returns tt ->
  exists rows : list (text * metadata * text),
    fst (run (index_batch files) w)
    = Returns (List.map (fun r => r.1.1) rows, List.map (fun r => r.1.2) rows,
               List.map snd rows) /\
    Forall (fun row => exists f j, f ∈ files /\ row_of w f j row) rows.
Proof.
  intros Ho. exists (indexed_rows w files). rewrite index_batch_full by done.
  destruct (indexed_rows_columns w files) as (-> & -> & ->).
  split; [done|]. apply Forall_forall. intros row Hin.
  apply list_elem_of_In, in_concat in Hin as (l & Hl & Hrow).
  apply in_map_iff in Hl as (f & <- & Hf).
  destruct (file_rows_row_of w f row Hrow) as (j & Hj).
  exists f, j. split; [by apply list_elem_of_In|done].
Qed.

Lemma index_files_rows_aligned_witness :
  exists rows : list (text * metadata * text),
    fst (run (index_batch twin_files) twin_world)
    = Returns (List.map (fun r => r.1.1) rows, List.map (fun r => r.1.2) rows,
               List.map snd rows) /\
    Forall (fun row => exists f j, f ∈ twin_files /\ row_of twin_world f j row) rows.
Proof. apply (index_files_rows_aligned twin_world twin_files). reflexivity. Defined.

(** When the files of the list have pairwise different base names, the
    ids handed to the bulk add are pairwise distinct. *)
Theorem index_files_ids_distinct (w : World) (files : list text) :
  w_open_collection w = Returns tt ->
  NoDup (List.map basename files) ->
  exists texts metadatas ids,
    fst (run (index_batch files) w) = Returns (texts, metadatas, ids) /\
    length ids = length texts /\ NoDup ids.
Proof.
  intros Ho Hnd. eexists _, _, _. rewrite index_batch_full by done.
  split; [done|]. split; [|by apply indexed_ids_NoDup].
  destruct (indexed_rows_columns w files) as (<- & _ & <-).
  by rewrite !length_map.
Qed.

Lemma index_files_ids_distinct_witness :
  exists texts metadatas ids,
    fst (run (index_batch [text_of "data/docs/faq.txt"; text_of "data/docs/emea/sla.txt"])
           twin_world)
    = Returns (texts, metadatas, ids) /\
    length ids = length texts /\ NoDup ids.
Proof.
  apply (index_files_ids_distinct twin_world
           [text_of "data/docs/faq.txt"; text_of "data/docs/emea/sla.txt"]);
    [reflexivity|].
  apply NoDup_cons. split; [|apply NoDup_singleton].
  intros H%list_elem_of_singleton. discriminate H.
Defined.

(** A failure of [collection.delete] changes nothing: the result and
    the calls of [index_files] are the same whatever the store answers
    to the clearing. *)
Theorem index_files_ignores_delete_failure (w : World) (files : list text)
    (d : outcome unit) :
  run (index_files files) (with_delete d w) = run (index_files files) w.
Proof.
  destruct (w_open_collection w) as [[]|e] eqn:Ho.
  - rewrite (index_files_full (with_delete d w)), (index_files_full w) by done.
    reflexivity.
  - unfold run, index_files, index_batch, build_collection, mbind, M_bind, bind, call.
    simpl. by rewrite Ho.
Qed.

(** When the collection cannot be opened, [index_files] raises that
    exception at once: no file is read and nothing is cleared. *)
Theorem index_files_open_failure (w : World) (files : list text) (e : exn) :
  w_open_collection w = Raises e ->
  run (index_files files) w = (Raises e, [EvOpenCollection]).
Proof.
  intros Ho.
  unfold run, index_files, index_batch, build_collection, mbind, M_bind, bind, call.
  simpl. by rewrite Ho.
Qed.

Lemma index_files_open_failure_witness :
  run (index_files twin_files) (with_store (Raises store_down) (Returns tt) twin_world)
  = (Raises store_down, [EvOpenCollection]).
Proof.
  apply (index_files_open_failure
           (with_store (Raises store_down) (Returns tt) twin_world) twin_files store_down).
  reflexivity.
Defined.

(** A failure of the bulk add is not caught: when there is a chunk to
    add and the store rejects the add, [index_files] raises the store's
    exception instead of returning counts. *)
Theorem index_files_add_failure (w : World) (files : list text) (e : exn) :
  w_open_collection w = Returns tt ->
  indexed_texts w files <> [] ->
  w_add w (indexed_texts w files) (indexed_metadatas w files) (indexed_ids w files)
  = Raises e ->
  fst (run (index_files files) w) = Raises e.
Proof.
  intros Ho Hne Ha. rewrite index_files_full by done. simpl.
  destruct (truthy_list (indexed_texts w files)) eqn:Ht; [by rewrite Ha|].
  by destruct (indexed_texts w files).
Qed.

Lemma index_files_add_failure_witness :
  fst (run (index_files twin_files)
         (with_store (Returns tt) (Raises store_down) twin_world))
  = Raises store_down.
Proof.
  apply (index_files_add_failure
           (with_store (Returns tt) (Raises store_down) twin_world) twin_files store_down);
    [reflexivity|discriminate|reflexivity].
Defined.

(** ** The command-line run *)

Lemma collect_files_nil glob isfile root :
  (forall p, p ∈ glob (path_join root (text_of "**/*.txt"))
             \/ p ∈ glob (path_join root (text_of "**/*.pdf")) ->
             isfile p = false) ->
  collect_files glob isfile root = [].
Proof.
  intros H. unfold collect_files.
  induction (glob _ ++ glob _) as [|p l IH] eqn:E in H |- *; [done|].
  assert (Hall : forall q, q ∈ p :: l -> isfile q = false).
  { intros q Hq. apply H. rewrite <- E in Hq. by apply elem_of_app in Hq. }
  clear H E. induction (p :: l) as [|q l' IH']; simpl; [done|].
  rewrite (Hall q) by by left. apply IH'. intros ? ?. apply Hall. by right.
Qed.

(** A run that finds no regular file matching [*.txt] or [*.pdf] under
    [data/docs] still opens the stored collection and sends it the
    delete request (whatever the store answers to it), adds nothing,
    and prints the notice that no documents were found. *)
Theorem main_no_documents (glob : text -> list text) (isfile : text -> bool)
    (w : World) :
  w_open_collection w = Returns tt ->
  (forall p, p ∈ glob (text_of "data/docs/**/*.txt")
             \/ p ∈ glob (text_of "data/docs/**/*.pdf") ->
             isfile p = false) ->
  run (main glob isfile) w
  = (Returns tt, [EvOpenCollection; EvDelete; EvPrint NO_DOCUMENTS]).
Proof.
  intros Ho Hnone. unfold run, main.
  change (path_join (text_of "data") (text_of "docs")) with (text_of "data/docs").
  rewrite collect_files_nil by exact Hnone.
  unfold mbind, M_bind, bind at 1.
  pose proof (index_files_full w [] Ho) as Hrun. unfold run in Hrun. rewrite Hrun.
  reflexivity.
Qed.

Lemma main_no_documents_witness :
  run (main (fun _ => [text_of "data/docs/archive.pdf"]) (fun _ => false))
    (with_delete (Raises store_down) twin_world)
  = (Returns tt, [EvOpenCollection; EvDelete; EvPrint NO_DOCUMENTS]).
Proof.
  apply (main_no_documents (fun _ => [text_of "data/docs/archive.pdf"])
           (fun _ => false) (with_delete (Raises store_down) twin_world));
    [reflexivity|done].
Defined.

(** A run that finds at least one file and whose store accepts the add
    makes the calls of [index_files] on the regular files found, text
    files first, and then prints the counts; it does so also when every
    file was skipped or blank, reporting 0 chunks. *)
Theorem main_reports_counts (glob : text -> list text) (isfile : text -> bool)
    (w : World) :
  let files :=
    List.filter isfile (glob (text_of "data/docs/**/*.txt")
                        ++ glob (text_of "data/docs/**/*.pdf")) in
  w_open_collection w = Returns tt ->
  (forall texts metadatas ids, w_add w texts metadatas ids = Returns tt) ->
  files <> [] ->
  run (main glob isfile) w
  = (Returns tt,
     snd (run (index_files files) w)
     ++ [EvPrint (text_of "Indexed " ++ str_of_nat (length (indexed_texts w files))
                  ++ text_of " chunks from " ++ str_of_nat (length files)
                  ++ text_of " files into Chroma (collection: partner_docs).")]).
Proof.
  intros files Ho Ha Hne. unfold run, main.
  change (path_join (text_of "data") (text_of "docs")) with (text_of "data/docs").
  change (collect_files glob isfile (text_of "data/docs")) with files.
  unfold mbind, M_bind, bind at 1.
  pose proof (index_files_full w files Ho) as Hrun. unfold run in Hrun. rewrite Hrun.
  rewrite Ha.
  assert (Hres : (if truthy_list (indexed_texts w files)
                  then Returns (length files, length (indexed_texts w files))
                  else Returns (length files, length (indexed_texts w files)))
                 = Returns (length files, length (indexed_texts w files)))
    by by destruct (truthy_list _).
  rewrite Hres. cbn [fst snd].
  assert (Hlen : (length files =? 0)%nat = false).
  { apply Nat.eqb_neq. intros H0. apply Hne. by apply nil_length_inv. }
  rewrite Hlen. reflexivity.
Qed.

Lemma main_reports_counts_witness :
  run (main sample_glob sample_isfile) blank_world
  = (Returns tt,
     [EvOpenCollection; EvDelete;
      EvReadText (text_of "data/docs/faq.txt");
      EvPrint (text_of "[skip] data/docs/faq.txt: Permission denied");
      EvReadText (text_of "data/docs/emea/sla.txt");
      EvPrint (text_of "[skip] data/docs/emea/sla.txt: Permission denied");
      EvPrint (text_of "Indexed 0 chunks from 2 files into Chroma (collection: partner_docs).")]).
Proof.
  rewrite (main_reports_counts sample_glob sample_isfile blank_world);
    [reflexivity|reflexivity|reflexivity|discriminate].
Defined.

(** ** Retrieval: pairing and failures *)

(** The pairs [retrieve] returns come from the first row of the store's
    reply only, position by position: the pair at index [i] is the
    document and the metadata at index [i], and there are as many pairs
    as the shorter of the two lists. *)
Theorem retrieve_pairs_by_position (w : World) (q : text) (k : Z)
    (res : query_result) (docs : list text) (metas : list metadata)
    (drest : list (list text)) (mrest : list (list metadata)) :
  w_open_collection w = Returns tt ->
  w_query w [q] (Z.max 1 k) = Returns res ->
  qr_documents res = Some (docs :: drest) ->
  qr_metadatas res = Some (metas :: mrest) ->
  exists pairs,
    fst (run (retrieve q k) w) = Returns pairs /\
    length pairs = Nat.min (length docs) (length metas) /\
    (forall i d m, pairs !! i = Some (d, m)
                   <-> docs !! i = Some d /\ metas !! i = Some m).
Proof.
  intros Ho Hq Hd Hm. exists (zip docs metas).
  rewrite retrieve_run by done. rewrite Hq, Hd, Hm. simpl.
  split; [done|]. split; [apply length_zip_with|].
  intros i d m. rewrite lookup_zip_with_Some. split.
  - by intros (x & y & [= -> ->] & ? & ?).
  - intros [? ?]. by exists d, m.
Qed.

Lemma retrieve_pairs_by_position_witness :
  exists pairs,
    fst (run (retrieve (text_of "What does MDF cover?") 2) answering_world)
    = Returns pairs /\
    length pairs = 2%nat /\
    (forall i d m,
        pairs !! i = Some (d, m)
        <-> [text_of "MDF covers co-marketing funds."; text_of "Claims close in 30 days."]
              !! i = Some d
            /\ [chunk_metadata (text_of "data/docs/faq.txt") 0; ∅] !! i = Some m).
Proof.
  apply (retrieve_pairs_by_position answering_world (text_of "What does MDF cover?") 2
           (QueryResult
              (Some [[text_of "MDF covers co-marketing funds.";
                      text_of "Claims close in 30 days."]])
              (Some [[chunk_metadata (text_of "data/docs/faq.txt") 0; ∅]]))
           [text_of "MDF covers co-marketing funds."; text_of "Claims close in 30 days."]
           [chunk_metadata (text_of "data/docs/faq.txt") 0; ∅] [] []); reflexivity.
Defined.

(** A failure of the store is not caught by [retrieve]: when opening the
    collection raises, no query is made and the exception is raised;
    when the query raises, that exception is raised. *)
Theorem retrieve_store_failure (w : World) (q : text) (k : Z) (e : exn) :
  w_open_collection w = Raises e
  \/ (w_open_collection w = Returns tt /\ w_query w [q] (Z.max 1 k) = Raises e) ->
  fst (run (retrieve q k) w) = Raises e /\
  (w_open_collection w = Raises e ->
   snd (run (retrieve q k) w) = [EvOpenCollection]).
Proof.
  intros [Ho|[Ho Hq]].
  - unfold run, retrieve, _get_collection, mbind, M_bind, bind, call. simpl.
    by rewrite Ho.
  - rewrite retrieve_run by done. rewrite Hq. split; [done|]. intros H. congruence.
Qed.

Lemma retrieve_store_failure_witness :
  fst (run (retrieve (text_of "What does MDF cover?") 4)
         (world_of no_file (Raises store_down) no_server))
  = Raises store_down.
Proof.
  apply (retrieve_store_failure (world_of no_file (Raises store_down) no_server)
           (text_of "What does MDF cover?") 4 store_down).
  right. split; reflexivity.
Defined.

(** A reply whose [documents] or [metadatas] entry is present but holds
    no row at all makes [retrieve] raise an index error. *)
Theorem retrieve_reply_without_rows (w : World) (q : text) (k : Z)
    (res : query_result) :
  w_open_collection w = Returns tt ->
  w_query w [q] (Z.max 1 k) = Returns res ->
  qr_documents res = Some [] \/ qr_metadatas res = Some [] ->
  fst (run (retrieve q k) w)
  = Raises (Exn IndexError (text_of "list index out of range")).
Proof.
  intros Ho Hq H. rewrite retrieve_run by done. rewrite Hq. simpl.
  destruct H as [-> | ->]; simpl; [done|].
  by destruct (default [[]] (qr_documents res)).
Qed.

Lemma retrieve_reply_without_rows_witness :
  fst (run (retrieve (text_of "What does MDF cover?") 4)
         (world_of no_file (Returns (QueryResult (Some []) (Some []))) no_server))
  = Raises (Exn IndexError (text_of "list index out of range")).
Proof.
  apply (retrieve_reply_without_rows
           (world_of no_file (Returns (QueryResult (Some []) (Some []))) no_server)
           (text_of "What does MDF cover?") 4 (QueryResult (Some []) (Some [])));
    [reflexivity|reflexivity|by left].
Defined.

(** ** Generation: the request and a successful reply *)

Lemma ollama_generate_post (w : World) (prompt : text) (model host : option text)
    (timeout : Z) (log : list event) :
  snd (_ollama_generate prompt model host timeout w log)
  = log ++ [EvPost
              (or_else host (default (text_of "http://localhost:11434")
                               (w_getenv w "OLLAMA_HOST"%string))
               ++ text_of "/api/generate")
              (or_else model (default (text_of "granite3.3:8b")
                                (w_getenv w "OLLAMA_MODEL"%string)))
              prompt timeout].
Proof.
  unfold _ollama_generate, getenv, mbind, M_bind, bind, call, raise_for_status, lift.
  simpl.
  destruct (w_post w _ _ prompt timeout) as [r|e]; [|done].
  destruct (truthy (http_error_msg r)); [done|]. simpl.
  by destruct (json_body r) as [[fields|]|e].
Qed.

(** Whatever the outcome, [_ollama_generate] makes exactly one request,
    to [<host>/api/generate] with the given prompt and timeout; for host
    and model a non-empty argument wins, else the environment variable
    if it is set (also when set to the empty string), else the built-in
    default. *)
Theorem ollama_generate_one_request (w : World) (prompt : text)
    (model host : option text) (timeout : Z) (log : list event) :
  snd (_ollama_generate prompt model host timeout w log)
  = log ++ [EvPost
              (setting host (w_getenv w "OLLAMA_HOST"%string)
                 (text_of "http://localhost:11434") ++ text_of "/api/generate")
              (setting model (w_getenv w "OLLAMA_MODEL"%string)
                 (text_of "granite3.3:8b"))
              prompt timeout].
Proof.
  rewrite ollama_generate_post. unfold setting, or_else.
  by destruct host as [[|? ?]|], model as [[|? ?]|],
    (w_getenv w "OLLAMA_HOST"%string), (w_getenv w "OLLAMA_MODEL"%string).
Qed.

(** A reply whose status is not 4xx or 5xx and whose body is a JSON
    object is a success: the text under [response] is returned, and the
    empty string when the object has no such key. *)
Theorem ollama_generate_success (w : World) (prompt : text) (log : list event)
    (r : response) (fields : gmap string text) :
  w_post w (gen_url w) (gen_model w) prompt 120 = Returns r ->
  ~ 400 <= status_code r < 600 ->
  json_body r = Returns (JObject fields) ->
  fst (_ollama_generate prompt None None 120 w log)
  = Returns (default [] (fields !! "response"%string)) /\
  (fields !! "response"%string = None ->
   fst (_ollama_generate prompt None None 120 w log) = Returns []).
Proof.
  intros Hp Hs Hj. rewrite ollama_generate_run, Hp. simpl.
  destruct (truthy (http_error_msg r)) eqn:Ht.
  - by apply (proj1 (http_error_msg_truthy _)) in Ht.
  - rewrite Hj. split; [done|]. by intros ->.
Qed.

Lemma ollama_generate_success_witness :
  let w := world_of no_file empty_reply
             (Returns (Response 302 (text_of "Found")
                         (text_of "http://localhost:11434/api/generate")
                         (Returns (JObject ∅)))) in
  fst (_ollama_generate (text_of "Hello") None None 120 w []) = Returns [].
Proof.
  intros w.
  destruct (ollama_generate_success w (text_of "Hello") []
              (Response 302 (text_of "Found")
                 (text_of "http://localhost:11434/api/generate") (Returns (JObject ∅))) ∅
              eq_refl ltac:(simpl; lia) eq_refl) as [_ H].
  apply H. reflexivity.
Defined.

(** ** Answering: success, totality and the prompt *)

(** With context retrieved and a successful reply of the generation
    service, [answer] returns the generated text as it is (the empty
    string if the reply has no [response] key), after exactly one
    request carrying the full prompt, with the default model and host
    and a timeout of 120 seconds. *)
Theorem answer_returns_generated_text (w : World) (q : text) (k : Z)
    (p : text * metadata) (ps : list (text * metadata)) (log : list event)
    (r : response) (fields : gmap string text) :
  run (retrieve q k) w = (Returns (p :: ps), log) ->
  w_post w (gen_url w) (gen_model w) (full_prompt q (p :: ps)) 120 = Returns r ->
  ~ 400 <= status_code r < 600 ->
  json_body r = Returns (JObject fields) ->
  run (answer q k) w
  = (Returns (default [] (fields !! "response"%string)),
     log ++ [EvPost (gen_url w) (gen_model w) (full_prompt q (p :: ps)) 120]).
Proof.
  intros Hr Hp Hs Hj. rewrite answer_run, Hr, ollama_generate_run, Hp.
  destruct (truthy (http_error_msg r)) eqn:Ht.
  - by apply (proj1 (http_error_msg_truthy _)) in Ht.
  - by rewrite Hj.
Qed.

Lemma answer_returns_generated_text_witness :
  fst (run (answer (text_of "What does MDF cover?") 2) answering_world)
  = Returns (text_of "- MDF covers co-marketing funds.").
Proof.
  rewrite (answer_returns_generated_text answering_world
             (text_of "What does MDF cover?") 2
             (text_of "MDF covers co-marketing funds.",
              chunk_metadata (text_of "data/docs/faq.txt") 0)
             [(text_of "Claims close in 30 days.", ∅)]
             [EvOpenCollection; EvQuery [text_of "What does MDF cover?"] 2]
             (Response 200 (text_of "OK")
                (text_of "http://localhost:11434/api/generate")
                (Returns (JObject {[ "response"%string :=
                                       text_of "- MDF covers co-marketing funds." ]})))
             {[ "response"%string := text_of "- MDF covers co-marketing funds." ]});
    [reflexivity|reflexivity|reflexivity|simpl; lia|reflexivity].
Defined.

Lemma retrieve_log_cases (w : World) (q : text) (k : Z) :
  snd (run (retrieve q k) w) = [EvOpenCollection]
  \/ snd (run (retrieve q k) w) = [EvOpenCollection; EvQuery [q] (Z.max 1 k)].
Proof.
  unfold run, retrieve, _get_collection, mbind, M_bind, bind, call. simpl.
  destruct (w_open_collection w); [|by left]. right.
  destruct (w_query w [q] (Z.max 1 k)) as [res|e]; [|done].
  unfold item0.
  destruct (default [[]] (qr_documents res)); simpl; [done|].
  by destruct (default [[]] (qr_metadatas res)).
Qed.

(** Nothing is retried: whatever the store and the generation service
    reply, and whether [answer] returns or raises, one call of [answer]
    sends at most one query to the store and at most one request to the
    generation service. *)
Theorem answer_never_retries (w : World) (q : text) (k : Z) :
  (length (List.filter is_query (snd (run (answer q k) w))) <= 1)%nat /\
  (length (List.filter is_post (snd (run (answer q k) w))) <= 1)%nat.
Proof.
  rewrite answer_run.
  pose proof (retrieve_log_cases w q k) as Hlog.
  destruct (run (retrieve q k) w) as [[[|p ps]|e] log]; simpl in Hlog.
  - destruct Hlog as [-> | ->]; simpl; lia.
  - rewrite ollama_generate_run.
    assert (Hq : (length (List.filter is_query
                    (log ++ [EvPost (gen_url w) (gen_model w)
                               (full_prompt q (p :: ps)) 120])) <= 1)%nat).
    { rewrite List.filter_app, length_app. destruct Hlog as [-> | ->]; simpl; lia. }
    assert (Hp : (length (List.filter is_post
                    (log ++ [EvPost (gen_url w) (gen_model w)
                               (full_prompt q (p :: ps)) 120])) <= 1)%nat).
    { rewrite List.filter_app, length_app. destruct Hlog as [-> | ->]; simpl; lia. }
    destruct (w_post w _ _ _ 120) as [r|e]; [|by split].
    destruct (truthy (http_error_msg r)); [by split|].
    by destruct (json_body r) as [[fields|kind]|e].
  - destruct Hlog as [-> | ->]; simpl; lia.
Qed.

(** A failure of retrieval is not caught by [answer]: the exception of
    the store is raised to the caller, and the generation service is
    not called. *)
Theorem answer_retrieval_failure (w : World) (q : text) (k : Z) (e : exn) :
  fst (run (retrieve q k) w) = Raises e ->
  fst (run (answer q k) w) = Raises e /\
  snd (run (answer q k) w) = snd (run (retrieve q k) w) /\
  forallb (fun ev => negb (is_post ev)) (snd (run (answer q k) w)) = true.
Proof.
  intros Hr. rewrite answer_run.
  pose proof (retrieve_never_posts w q k) as Hnp.
  destruct (run (retrieve q k) w) as [o log]. simpl in Hr, Hnp. by subst o.
Qed.

Lemma answer_retrieval_failure_witness :
  fst (run (answer (text_of "What does MDF cover?") 4)
         (world_of no_file (Raises store_down) no_server))
  = Raises store_down.
Proof.
  apply (answer_retrieval_failure (world_of no_file (Raises store_down) no_server)
           (text_of "What does MDF cover?") 4 store_down).
  reflexivity.
Defined.

Lemma infix_of_refl a : infix_of a a.
Proof. exists [], []. by rewrite app_nil_r. Qed.

Lemma infix_of_app_l a b c : infix_of a b -> infix_of a (c ++ b).
Proof.
  intros (pre & post & ->). exists (c ++ pre), post. by rewrite <- app_assoc.
Qed.

Lemma infix_of_app_r a b c : infix_of a b -> infix_of a (b ++ c).
Proof.
  intros (pre & post & ->). exists pre, (post ++ c). by rewrite <- !app_assoc.
Qed.

Lemma infix_of_join sep x parts : In x parts -> infix_of x (join sep parts).
Proof.
  induction parts as [|p ps IH]; [done|]. intros [->|Hin].
  - destruct ps; simpl; [apply infix_of_refl|apply infix_of_app_r, infix_of_refl].
  - destruct ps as [|p' ps]; [done|]. cbn [join].
    by apply infix_of_app_l, infix_of_app_l, IH.
Qed.

(** The prompt sent to the model starts with the system instruction,
    ends with the cue ["Answer:"], holds the question after
    ["Question: "], and holds every retrieved excerpt verbatim, each
    after the label ["[From <source>]:"] and a newline; an excerpt whose
    metadata has no [source] is labelled [unknown]. *)
Theorem full_prompt_structure (q : text) (pairs : list (text * metadata)) :
  SYSTEM_PROMPT `prefix_of` full_prompt q pairs /\
  text_of "Answer:" `suffix_of` full_prompt q pairs /\
  infix_of (text_of "Question: " ++ q ++ [LF; LF]) (full_prompt q pairs) /\
  Forall (fun dm : text * metadata =>
            infix_of (text_of "[From " ++ source_label dm.2 ++ text_of "]:" ++ [LF]
                      ++ dm.1)
              (full_prompt q pairs)) pairs /\
  (forall m : metadata, m !! "source"%string = None ->
                        source_label m = text_of "unknown").
Proof.
  unfold full_prompt. split; [by eexists|]. split; [|split; [|split]].
  - exists (SYSTEM_PROMPT ++ [LF; LF]
            ++ (text_of "Context excerpts:" ++ [LF] ++ context_block pairs ++ [LF; LF]
                ++ text_of "Question: " ++ q ++ [LF; LF]
                ++ text_of "Answer in bullets. Then add a 'Sources' list with the file names only.")
            ++ [LF; LF]).
    by rewrite <- !app_assoc.
  - apply infix_of_app_l, infix_of_app_l, infix_of_app_r.
    apply infix_of_app_l, infix_of_app_l, infix_of_app_l, infix_of_app_l.
    exists [], (text_of "Answer in bullets. Then add a 'Sources' list with the file names only.").
    by rewrite <- !app_assoc.
  - apply Forall_forall. intros dm Hin.
    apply infix_of_app_l, infix_of_app_l, infix_of_app_r.
    apply infix_of_app_l, infix_of_app_l, infix_of_app_r.
    unfold context_block. apply infix_of_join.
    apply list_elem_of_In in Hin.
    by apply (in_map (fun dm : text * metadata =>
                        text_of "[From "
                        ++ str_of_mval (default (MStr (text_of "unknown"))
                                          (dm.2 !! "source"%string))
                        ++ text_of "]:" ++ [LF] ++ dm.1)) in Hin.
  - intros m Hm. unfold source_label. by rewrite Hm.
Qed.
